(** * DevTunnel+ gateway: tunnel registry, protocol codec, forwarder and
      inspector store, embedded from the JavaScript sources.

    Conventions of the embedding.
    - JavaScript strings are modelled as [string] (sequences of 8-bit
      characters); host labels, header names and protocol type tags are
      ASCII, and [toLowerCase] is the ASCII case fold.
    - A JavaScript [Map] is a [gmap]; arrays are lists; the per-tunnel
      [pendingRequests] map, whose iteration order decides the order of the
      rejections in [closeTunnel], is an insertion-ordered association list.
    - Objects that are shared between several indices and mutated in place
      ([Tunnel], [InspectedTraffic]) are split into the fields assigned once
      by the constructor, which travel with the reference together with the
      identity of the object, and the mutable fields, which live in a store
      keyed by that identity.
    - Values drawn from the nanoid generators and from [Date.now()] are
      inputs of the operations that draw them.
    - Calls to the logger change no state that the program reads back and are
      left out; events emitted through [EventEmitter.emit], promise
      settlements and frames written to a socket are appended to a trace. *)

From Stdlib Require Import Ascii String.
From stdpp Require Import base option list strings pretty gmap fin_maps.

Set Warnings "-register-all".
Local Open Scope string_scope.
Local Open Scope list_scope.

(* ===================================================================== *)
(** * JavaScript string primitives *)
(* ===================================================================== *)

Module Js.

(** [c >= 'A' && c <= 'Z'] *)
Definition is_upper (c : ascii) : bool :=
  let n := N_of_ascii c in (65 <=? n)%N && (n <=? 90)%N.

Definition is_lower (c : ascii) : bool :=
  let n := N_of_ascii c in (97 <=? n)%N && (n <=? 122)%N.

Definition is_digit (c : ascii) : bool :=
  let n := N_of_ascii c in (48 <=? n)%N && (n <=? 57)%N.

Definition lower_ascii (c : ascii) : ascii :=
  if is_upper c then ascii_of_N (N_of_ascii c + 32) else c.

(** [String.prototype.toLowerCase] on ASCII text. *)
Fixpoint toLowerCase (s : string) : string :=
  match s with
  | EmptyString => EmptyString
  | String c s' => String (lower_ascii c) (toLowerCase s')
  end.

(** Truthiness of a string value: only the empty string is falsy. *)
Definition truthy (s : string) : bool :=
  match s with EmptyString => false | _ => true end.

(** [String.prototype.replace] with a global one-character pattern. *)
Fixpoint replaceAll (c : ascii) (by_ : string) (s : string) : string :=
  match s with
  | EmptyString => EmptyString
  | String d s' =>
      if Ascii.eqb d c then by_ +:+ replaceAll c by_ s'
      else String d (replaceAll c by_ s')
  end.

(** [Array.prototype.join]. *)
Fixpoint join (sep : string) (parts : list string) : string :=
  match parts with
  | [] => ""
  | [p] => p
  | p :: ps => p +:+ sep +:+ join sep ps
  end.

(** [Array.prototype.includes] on an array of strings. *)
Definition includes (l : list string) (s : string) : bool :=
  existsb (String.eqb s) l.

End Js.

(* ===================================================================== *)
(** * Regular expressions, as far as [SUBDOMAIN_PATTERN] needs them *)
(* ===================================================================== *)

Module Regex.

Inductive regex : Type :=
  | Void : regex
  | Eps : regex
  | Class : (ascii -> bool) -> regex
  | Cat : regex -> regex -> regex
  | Alt : regex -> regex -> regex
  | Star : regex -> regex.

Fixpoint nullable (r : regex) : bool :=
  match r with
  | Void => false
  | Eps => true
  | Class _ => false
  | Cat r1 r2 => nullable r1 && nullable r2
  | Alt r1 r2 => nullable r1 || nullable r2
  | Star _ => true
  end.

Fixpoint deriv (c : ascii) (r : regex) : regex :=
  match r with
  | Void => Void
  | Eps => Void
  | Class p => if p c then Eps else Void
  | Cat r1 r2 =>
      if nullable r1 then Alt (Cat (deriv c r1) r2) (deriv c r2)
      else Cat (deriv c r1) r2
  | Alt r1 r2 => Alt (deriv c r1) (deriv c r2)
  | Star r1 => Cat (deriv c r1) (Star r1)
  end.

(** Anchored match of the whole input ([^r$] without flags). *)
Fixpoint matchb (r : regex) (s : list ascii) : bool :=
  match s with
  | [] => nullable r
  | c :: s' => matchb (deriv c r) s'
  end.

(** [RegExp.prototype.test] for an anchored pattern. *)
Definition test (r : regex) (s : string) : bool :=
  matchb r (list_ascii_of_string s).

(** The language of a regular expression. *)
Inductive matches : regex -> list ascii -> Prop :=
  | MEps : matches Eps []
  | MClass p c : p c = true -> matches (Class p) [c]
  | MCat r1 r2 s1 s2 :
      matches r1 s1 -> matches r2 s2 -> matches (Cat r1 r2) (s1 ++ s2)
  | MAltL r1 r2 s : matches r1 s -> matches (Alt r1 r2) s
  | MAltR r1 r2 s : matches r2 s -> matches (Alt r1 r2) s
  | MStarNil r : matches (Star r) []
  | MStarApp r s1 s2 :
      matches r s1 -> matches (Star r) s2 -> matches (Star r) (s1 ++ s2).

End Regex.

(* ===================================================================== *)
(** * packages/shared/src/constants.js *)
(* ===================================================================== *)

Module TUNNEL_CONFIG.

Definition MAX_TUNNELS_PER_CLIENT : nat := 10.
Definition SUBDOMAIN_MIN_LENGTH : nat := 4.
Definition SUBDOMAIN_MAX_LENGTH : nat := 32.

(** [[a-z0-9]] *)
Definition alnum (c : ascii) : bool := Js.is_lower c || Js.is_digit c.

(** [[a-z0-9-]] *)
Definition alnum_dash (c : ascii) : bool :=
  alnum c || Ascii.eqb c "-"%char.

(** [/^[a-z0-9][a-z0-9-]*[a-z0-9]$/] *)
Definition SUBDOMAIN_PATTERN : Regex.regex :=
  Regex.Cat (Regex.Class alnum)
    (Regex.Cat (Regex.Star (Regex.Class alnum_dash)) (Regex.Class alnum)).

Definition REQUEST_TIMEOUT : N := 30000.
Definition MAX_STORED_REQUESTS : nat := 1000.

End TUNNEL_CONFIG.

Inductive ErrorCode : Type :=
  | CONNECTION_FAILED
  | CONNECTION_CLOSED
  | TUNNEL_NOT_FOUND
  | TUNNEL_LIMIT_EXCEEDED
  | SUBDOMAIN_TAKEN
  | INVALID_SUBDOMAIN
  | REQUEST_TIMEOUT
  | REQUEST_FAILED.

(* ===================================================================== *)
(** * packages/shared/src/utils.js *)
(* ===================================================================== *)

(** [isValidSubdomain], on a string argument.  The first test of the source,
    [!subdomain || typeof subdomain !== 'string'], rejects the empty string
    here; values of other types are rejected by the caller's model. *)
Definition isValidSubdomain (subdomain : string) : bool :=
  if negb (Js.truthy subdomain) then false
  else if (String.length subdomain <? TUNNEL_CONFIG.SUBDOMAIN_MIN_LENGTH)%nat then false
  else if (TUNNEL_CONFIG.SUBDOMAIN_MAX_LENGTH <? String.length subdomain)%nat then false
  else Regex.test TUNNEL_CONFIG.SUBDOMAIN_PATTERN subdomain.

(** The subdomain grammar as the specification words it: one character of
    [[a-z0-9]], any number of [[a-z0-9-]], one character of [[a-z0-9]]. *)
Definition label_grammar (s : string) : Prop :=
  exists (c1 c2 : ascii) (mid : list ascii),
    list_ascii_of_string s = c1 :: mid ++ [c2] /\
    TUNNEL_CONFIG.alnum c1 = true /\
    Forall (fun c => TUNNEL_CONFIG.alnum_dash c = true) mid /\
    TUNNEL_CONFIG.alnum c2 = true.

(* ===================================================================== *)
(** * JavaScript values that arrive in protocol messages *)
(* ===================================================================== *)

(** The result of [JSON.parse] on well-formed text.  Object members are kept
    in textual order; a number is kept as an integer, which is as much as the
    code distinguishes (zero is falsy, and no number is strictly equal to a
    string). *)
Inductive json : Type :=
  | JNull : json
  | JBool : bool -> json
  | JNum : Z -> json
  | JStr : string -> json
  | JArr : list json -> json
  | JObj : list (string * json) -> json.

(** A JavaScript value that may be [undefined]. *)
Definition jsval : Type := option json.

Definition undefined : jsval := None.

Module JsVal.

(** [ToBoolean] *)
Definition truthy (v : jsval) : bool :=
  match v with
  | None => false
  | Some JNull => false
  | Some (JBool b) => b
  | Some (JNum z) => negb (z =? 0)%Z
  | Some (JStr s) => Js.truthy s
  | Some (JArr _) => true
  | Some (JObj _) => true
  end.

(** [typeof v === 'string'] *)
Definition is_string (v : jsval) : bool :=
  match v with Some (JStr _) => true | _ => false end.

(** [v === s] for a string [s]. *)
Definition strict_eq_string (v : jsval) (s : string) : bool :=
  match v with Some (JStr s') => String.eqb s' s | _ => false end.

(** Member lookup in a parsed object: when a key is repeated in the text the
    last member wins. *)
Fixpoint member (k : string) (fields : list (string * json)) : jsval :=
  match fields with
  | [] => undefined
  | (k', v) :: rest =>
      match member k rest with
      | Some w => Some w
      | None => if String.eqb k' k then Some v else undefined
      end
  end.

(** The outcome of evaluating a property access [v.k]: reading a property of
    [null] throws a [TypeError]. *)
Inductive access : Type :=
  | Throws : access
  | Value : jsval -> access.

Definition prop (v : json) (k : string) : access :=
  match v with
  | JNull => Throws
  | JObj fields => Value (member k fields)
  | _ => Value undefined
  end.

End JsVal.

(** [isValidSubdomain] applied to an arbitrary value, as the registry calls
    it on the [subdomain] member of a registration payload. *)
Definition isValidSubdomainValue (subdomain : jsval) : bool :=
  if negb (JsVal.truthy subdomain) || negb (JsVal.is_string subdomain) then false
  else match subdomain with
       | Some (JStr s) => isValidSubdomain s
       | _ => false
       end.

(* ===================================================================== *)
(** * packages/shared/src/protocol.js *)
(* ===================================================================== *)

(** The [MessageType] enumeration: property names and their values, in the
    order of the object literal. *)
Definition MessageType : list (string * string) :=
  [ ("TUNNEL_REGISTER", "tunnel:register");
    ("TUNNEL_REGISTERED", "tunnel:registered");
    ("TUNNEL_CLOSE", "tunnel:close");
    ("TUNNEL_CLOSED", "tunnel:closed");
    ("HTTP_REQUEST", "http:request");
    ("HTTP_RESPONSE", "http:response");
    ("HTTP_ERROR", "http:error");
    ("PING", "ping");
    ("PONG", "pong");
    ("ERROR", "error");
    ("INSPECT_REQUEST", "inspect:request");
    ("INSPECT_RESPONSE", "inspect:response");
    ("REPLAY_REQUEST", "replay:request");
    ("REPLAY_RESPONSE", "replay:response") ].

(** [MessageType[k]] for a property name that may be [undefined]. *)
Definition MessageType_at (k : option string) : jsval :=
  match k with
  | None => undefined
  | Some k =>
      match List.find (fun kv => String.eqb (fst kv) k) MessageType with
      | Some kv => Some (JStr (snd kv))
      | None => undefined
      end
  end.

(** What [JSON.parse] does with the text of a frame: it throws a
    [SyntaxError] on malformed text and returns a value otherwise. *)
Inductive ParseResult : Type :=
  | SyntaxError : ParseResult
  | Parsed : json -> ParseResult.

(** [parseMessage], from the result of [JSON.parse(str)] on.  Every
    exception raised inside the [try] block makes it return [null]. *)
Definition parseMessage (data : ParseResult) : option json :=
  match data with
  | SyntaxError => None
  | Parsed parsed =>
      match JsVal.prop parsed "type" with
      | JsVal.Throws => None
      | JsVal.Value type =>
          let k :=
            fst <$> List.find
                      (fun kv => JsVal.strict_eq_string type (snd kv))
                      MessageType in
          if negb (JsVal.truthy type) || negb (JsVal.truthy (MessageType_at k))
          then None
          else Some parsed
      end
  end.

(** The seven message kinds of the specification's table (ping and pong
    share a row). *)
Definition spec_message_types : list string :=
  [ "tunnel:register"; "tunnel:registered"; "tunnel:close";
    "http:request"; "http:response"; "http:error"; "ping"; "pong" ].

(** The [type] member of a frame, when the frame is an object that has a
    string there. *)
Definition type_of (data : ParseResult) : option string :=
  match data with
  | Parsed (JObj fields) =>
      match JsVal.member "type" fields with
      | Some (JStr s) => Some s
      | _ => None
      end
  | _ => None
  end.

(** What [WebSocketHandler.handleMessage] does with a frame. *)
Inductive Dispatch : Type :=
  | ReplyError (code : string)
  | HandleTunnelRegister (payload : jsval)
  | HandleTunnelClose (payload : jsval)
  | HandleHttpResponse (payload : jsval)
  | HandleHttpError (payload : jsval)
  | ReplyPong
  | Ignore
  | Raises.

Definition payload_of (message : json) : jsval :=
  match JsVal.prop message "payload" with
  | JsVal.Value v => v
  | JsVal.Throws => undefined
  end.

(** [handleMessage]: the reply or the handler chosen for a frame.  No branch
    closes the socket. *)
Definition handleMessage (data : ParseResult) : Dispatch :=
  match parseMessage data with
  | None => ReplyError "INVALID_MESSAGE"
  | Some message =>
      (* [switch (message.type)]: strict equality with each case in turn *)
      let type := default "" (type_of (Parsed message)) in
      if String.eqb type "tunnel:register" then HandleTunnelRegister (payload_of message)
      else if String.eqb type "tunnel:close" then HandleTunnelClose (payload_of message)
      else if String.eqb type "http:response" then HandleHttpResponse (payload_of message)
      else if String.eqb type "http:error" then HandleHttpError (payload_of message)
      else if String.eqb type "ping" then
        (* [message.payload.timestamp] *)
        match payload_of message with
        | None | Some JNull => Raises
        | Some _ => ReplyPong
        end
      else if String.eqb type "pong" then Ignore
      else ReplyError "UNKNOWN_MESSAGE"
  end.

(** The gateway's configuration, as [index.js] builds it from the
    environment. *)
Record Config : Type := mkConfig {
  httpPort : N;
  publicDomain : string;
}.

(** [WebSocketHandler.buildPublicUrl] *)
Definition buildPublicUrl (config : Config) (subdomain : string) : string :=
  let port :=
    if negb (httpPort config =? 80)%N && negb (httpPort config =? 443)%N
    then ":" +:+ pretty (httpPort config) else "" in
  "http://" +:+ subdomain +:+ "." +:+ publicDomain config +:+ port.

(* ===================================================================== *)
(** * gateway-server/src/services/TunnelManager.js *)
(* ===================================================================== *)

(** The identity of a WebSocket object; sockets are compared and used as map
    keys by identity only. *)
Definition WebSocket : Type := nat.

(** The fields of a [Tunnel] that the constructor assigns and nothing
    reassigns, with the identity [obj] of the object. *)
Record Tunnel : Type := mkTunnel {
  obj : nat;
  tunnelId : string;
  subdomain : string;
  ws : WebSocket;
  localPort : jsval;
  createdAt : Z;
}.

(** An entry of [pendingRequests].  The [resolve] and [reject] closures that
    [forwardRequest] stores are both built around one deferred promise and
    its timer, named here by [deferred]; as closures they are truthy. *)
Record Pending : Type := mkPending {
  deferred : nat;
  startTime : Z;
}.

(** The fields of a [Tunnel] that are updated in place. *)
Record TunnelData : Type := mkTunnelData {
  lastActivity : Z;
  requestCount : nat;
  bytesIn : nat;
  bytesOut : nat;
  pendingRequests : list (string * Pending);
}.

(** Insertion-ordered [Map] with string keys. *)
Module OrderedMap.
Section OrderedMap.
Context {V : Type}.

Fixpoint get (k : string) (m : list (string * V)) : option V :=
  match m with
  | [] => None
  | (k', v) :: rest => if String.eqb k' k then Some v else get k rest
  end.

(** [Map.prototype.set]: an existing key keeps its position. *)
Fixpoint set (k : string) (v : V) (m : list (string * V)) : list (string * V) :=
  match m with
  | [] => [(k, v)]
  | (k', v') :: rest =>
      if String.eqb k' k then (k, v) :: rest else (k', v') :: set k v rest
  end.

Fixpoint delete (k : string) (m : list (string * V)) : list (string * V) :=
  match m with
  | [] => []
  | (k', v') :: rest =>
      if String.eqb k' k then delete k rest else (k', v') :: delete k rest
  end.
End OrderedMap.
End OrderedMap.

(** Header objects: members in insertion order. *)
Definition Headers : Type := list (string * string).

(** The payload of a well-formed [http:response] frame; [res_body] is the
    base64 text, [None] for [null]. *)
Record HttpResponse : Type := mkHttpResponse {
  statusCode : nat;
  res_headers : option Headers;
  res_body : option string;
}.

(** What the registry and the forwarder do to the outside through the
    tunnels: events emitted to the registry's listeners and settlements of
    the deferred promises of pending requests. *)
Inductive ManagerEvent : Type :=
  | Emit_tunnel_created (tunnel : Tunnel)
  | Emit_tunnel_closed (tunnel : Tunnel) (reason : string)
  | Reject (d : nat) (message : string) (code : option string)
  | Resolve (d : nat) (response : HttpResponse).

Record TunnelManager : Type := mkTunnelManager {
  tunnelsBySubdomain : gmap string Tunnel;
  tunnelsById : gmap string Tunnel;
  tunnelsByWs : gmap WebSocket (list Tunnel);
  (** mutable fields of the tunnel objects, by identity *)
  heap : gmap nat TunnelData;
  (** identity of the next object to be constructed *)
  next_obj : nat;
  trace : list ManagerEvent;
}.

Definition reservedSubdomains : list string :=
  [ "api"; "www"; "admin"; "dashboard"; "app"; "mail"; "ftp" ].

(** [new TunnelManager()] *)
Definition TunnelManager_new : TunnelManager :=
  {| tunnelsBySubdomain := ∅; tunnelsById := ∅; tunnelsByWs := ∅;
     heap := ∅; next_obj := 0; trace := [] |}.

Definition TunnelData_new (now : Z) : TunnelData :=
  {| lastActivity := now; requestCount := 0; bytesIn := 0; bytesOut := 0;
     pendingRequests := [] |}.

#[global] Instance TunnelData_inhabited : Inhabited TunnelData :=
  populate (TunnelData_new 0).

(** [Map.prototype.has] *)
Definition has {K V} `{Countable K} (m : gmap K V) (k : K) : bool :=
  bool_decide (is_Some (m !! k)).

(** The arguments of [registerTunnel]. *)
Record RegisterOptions : Type := mkRegisterOptions {
  opt_ws : WebSocket;
  requestedSubdomain : jsval;
  opt_localPort : jsval;
}.

(** What one call of [registerTunnel] draws from its environment: the
    successive results of [generateSubdomain()], the result of
    [generateTunnelId()], and the clock. *)
Record Draws : Type := mkDraws {
  drawn_subdomains : list string;
  drawn_tunnelId : string;
  drawn_now : Z;
}.

Inductive RegisterResult : Type :=
  | Success (tunnel : Tunnel)
  | Failure (error : string) (code : ErrorCode).

(** The [do ... while] loop of the generated branch: the first draw that is
    neither live nor reserved.  [None] when every draw supplied is refused,
    that is when the loop is still running after them. *)
Fixpoint generate_loop (tm : TunnelManager) (draws : list string) : option string :=
  match draws with
  | [] => None
  | subdomain :: rest =>
      if has (tunnelsBySubdomain tm) subdomain
         || Js.includes reservedSubdomains subdomain
      then generate_loop tm rest
      else Some subdomain
  end.

(** The first half of [registerTunnel]: validate or generate the subdomain.
    [inl] is an early return, [inr] the subdomain chosen, [None] a
    generation loop that has not ended. *)
Definition choose_subdomain (tm : TunnelManager) (requestedSubdomain : jsval)
    (draws : list string) : option (RegisterResult + string) :=
  if JsVal.truthy requestedSubdomain then
    if negb (isValidSubdomainValue requestedSubdomain) then
      Some (inl (Failure "Invalid subdomain format" INVALID_SUBDOMAIN))
    else
      match requestedSubdomain with
      | Some (JStr requested) =>
          if Js.includes reservedSubdomains (Js.toLowerCase requested) then
            Some (inl (Failure "Subdomain is reserved" SUBDOMAIN_TAKEN))
          else if has (tunnelsBySubdomain tm) (Js.toLowerCase requested) then
            Some (inl (Failure "Subdomain is already in use" SUBDOMAIN_TAKEN))
          else Some (inr (Js.toLowerCase requested))
      | _ =>
          (* [toLowerCase] is not a function: caught by the [catch] block *)
          Some (inl (Failure "requestedSubdomain.toLowerCase is not a function"
                       CONNECTION_FAILED))
      end
  else
    inr <$> generate_loop tm draws.

Definition registerTunnel (options : RegisterOptions) (d : Draws)
    (tm : TunnelManager) : option (RegisterResult * TunnelManager) :=
  match choose_subdomain tm (requestedSubdomain options) (drawn_subdomains d) with
  | None => None
  | Some (inl failure) => Some (failure, tm)
  | Some (inr subdomain) =>
      let existingTunnels := default [] (tunnelsByWs tm !! opt_ws options) in
      if (TUNNEL_CONFIG.MAX_TUNNELS_PER_CLIENT <=? length existingTunnels)%nat then
        Some (Failure "Maximum tunnels per client exceeded" TUNNEL_LIMIT_EXCEEDED, tm)
      else
        let tunnel :=
          {| obj := next_obj tm;
             tunnelId := drawn_tunnelId d;
             subdomain := subdomain;
             ws := opt_ws options;
             localPort := opt_localPort options;
             createdAt := drawn_now d |} in
        Some (Success tunnel,
              {| tunnelsBySubdomain := <[subdomain := tunnel]> (tunnelsBySubdomain tm);
                 tunnelsById := <[drawn_tunnelId d := tunnel]> (tunnelsById tm);
                 tunnelsByWs :=
                   <[opt_ws options := existingTunnels ++ [tunnel]]> (tunnelsByWs tm);
                 heap := <[next_obj tm := TunnelData_new (drawn_now d)]> (heap tm);
                 next_obj := S (next_obj tm);
                 trace := trace tm ++ [Emit_tunnel_created tunnel] |})
  end.

(** [getTunnelBySubdomain]; [subdomain?.toLowerCase()] of [undefined] is
    [undefined], which is no key of the map. *)
Definition getTunnelBySubdomain (tm : TunnelManager) (subdomain : option string)
    : option Tunnel :=
  match subdomain with
  | None => None
  | Some s => tunnelsBySubdomain tm !! Js.toLowerCase s
  end.

Definition getTunnelById (tm : TunnelManager) (tunnelId : string) : option Tunnel :=
  tunnelsById tm !! tunnelId.

Definition getTunnelsByWs (tm : TunnelManager) (w : WebSocket) : list Tunnel :=
  default [] (tunnelsByWs tm !! w).

(** Objects are compared by identity. *)
Definition same_object (a b : Tunnel) : bool := (obj a =? obj b)%nat.

(** [index = a.indexOf(x); if (index !== -1) a.splice(index, 1)] *)
Fixpoint splice_out (x : Tunnel) (a : list Tunnel) : list Tunnel :=
  match a with
  | [] => []
  | y :: rest => if same_object y x then rest else y :: splice_out x rest
  end.

(** The last part of [closeTunnel], "Remove from ws map": the tunnel is
    spliced out of its socket's array, and the array is dropped from the map
    when it becomes empty. *)
Definition ws_index_without (t : Tunnel) (tm : TunnelManager) : gmap WebSocket (list Tunnel) :=
  match tunnelsByWs tm !! ws t with
  | None => tunnelsByWs tm
  | Some wsTunnels =>
      let wsTunnels' := splice_out t wsTunnels in
      if (length wsTunnels' =? 0)%nat then delete (ws t) (tunnelsByWs tm)
      else <[ws t := wsTunnels']> (tunnelsByWs tm)
  end.

Definition closeTunnel (tunnelId : string) (reason : option string)
    (tm : TunnelManager) : TunnelManager :=
  let reason := default "Tunnel closed" reason in
  match tunnelsById tm !! tunnelId with
  | None => tm
  | Some tunnel =>
      let data := heap tm !!! obj tunnel in
      let rejections :=
        map (fun entry => Reject (deferred (snd entry)) "Tunnel closed" None)
            (pendingRequests data) in
      let data' :=
        {| lastActivity := lastActivity data; requestCount := requestCount data;
           bytesIn := bytesIn data; bytesOut := bytesOut data;
           pendingRequests := [] |} in
      {| tunnelsBySubdomain := delete (subdomain tunnel) (tunnelsBySubdomain tm);
         tunnelsById := delete tunnelId (tunnelsById tm);
         tunnelsByWs := ws_index_without tunnel tm;
         heap := <[obj tunnel := data']> (heap tm);
         next_obj := next_obj tm;
         trace := trace tm ++ rejections ++ [Emit_tunnel_closed tunnel reason] |}
  end.

(** [closeTunnelsForWs]: iterates over a copy of the socket's array. *)
Definition closeTunnelsForWs (w : WebSocket) (reason : option string)
    (tm : TunnelManager) : TunnelManager :=
  let reason := default "Connection closed" reason in
  fold_left (fun tm tunnel => closeTunnel (tunnelId tunnel) (Some reason) tm)
            (getTunnelsByWs tm w) tm.

(** [closeAll]: iterates over a copy of the keys of [tunnelsById].  The keys
    are visited in the order of the [gmap], which need not be the order of
    insertion that the JavaScript [Map] follows. *)
Definition closeAll (tm : TunnelManager) : TunnelManager :=
  fold_left (fun tm tunnelId => closeTunnel tunnelId (Some "Server shutdown") tm)
            (map fst (map_to_list (tunnelsById tm))) tm.

Definition getTunnelCount (tm : TunnelManager) : nat := size (tunnelsById tm).

(** [Tunnel.prototype.recordRequest] *)
Definition Tunnel_recordRequest (bytesIn' bytesOut' : nat) (now : Z)
    (data : TunnelData) : TunnelData :=
  {| lastActivity := now;
     requestCount := S (requestCount data);
     bytesIn := bytesIn data + bytesIn';
     bytesOut := bytesOut data + bytesOut';
     pendingRequests := pendingRequests data |}.

(** [Tunnel.prototype.addPendingRequest] *)
Definition Tunnel_addPendingRequest (requestId : string) (d : nat) (now : Z)
    (data : TunnelData) : TunnelData :=
  {| lastActivity := lastActivity data; requestCount := requestCount data;
     bytesIn := bytesIn data; bytesOut := bytesOut data;
     pendingRequests :=
       OrderedMap.set requestId {| deferred := d; startTime := now |}
                      (pendingRequests data) |}.

Definition Tunnel_getPendingRequest (requestId : string) (data : TunnelData)
    : option Pending :=
  OrderedMap.get requestId (pendingRequests data).

Definition Tunnel_removePendingRequest (requestId : string) (data : TunnelData)
    : TunnelData :=
  {| lastActivity := lastActivity data; requestCount := requestCount data;
     bytesIn := bytesIn data; bytesOut := bytesOut data;
     pendingRequests := OrderedMap.delete requestId (pendingRequests data) |}.

(** The operations of the registry, with what each draws. *)
Inductive Op : Type :=
  | OpRegister (options : RegisterOptions) (d : Draws)
  | OpClose (tunnelId : string) (reason : option string)
  | OpCloseForWs (w : WebSocket) (reason : option string)
  | OpCloseAll.

(** One operation; [None] when a generation loop does not end within the
    draws supplied. *)
Definition step (op : Op) (tm : TunnelManager) : option TunnelManager :=
  match op with
  | OpRegister options d => snd <$> registerTunnel options d tm
  | OpClose tunnelId reason => Some (closeTunnel tunnelId reason tm)
  | OpCloseForWs w reason => Some (closeTunnelsForWs w reason tm)
  | OpCloseAll => Some (closeAll tm)
  end.

(** The draw of [generateTunnelId()] in a registration is an identifier that
    no live tunnel carries.  The generator is nanoid's; the registry does not
    test its result against [tunnelsById]. *)
Definition fresh_draw (op : Op) (tm : TunnelManager) : Prop :=
  match op with
  | OpRegister _ d => tunnelsById tm !! drawn_tunnelId d = None
  | _ => True
  end.

Definition fresh_drawb (op : Op) (tm : TunnelManager) : bool :=
  match op with
  | OpRegister _ d => negb (has (tunnelsById tm) (drawn_tunnelId d))
  | _ => true
  end.

(** A sequence of operations, run in order.  [None] when a registration
    draws the identifier of a live tunnel or when a generation loop does not
    end within its draws. *)
Fixpoint run (ops : list Op) (tm : TunnelManager) : option TunnelManager :=
  match ops with
  | [] => Some tm
  | op :: rest =>
      if fresh_drawb op tm then
        match step op tm with
        | Some tm' => run rest tm'
        | None => None
        end
      else None
  end.

(** The states of a registry that starts empty and runs operations whose
    tunnel identifiers are drawn fresh. *)
Inductive reachable : TunnelManager -> Prop :=
  | reachable_new : reachable TunnelManager_new
  | reachable_step op tm tm' :
      reachable tm -> fresh_draw op tm -> step op tm = Some tm' -> reachable tm'.

(** A tunnel is live when some index holds it. *)
Definition live (tm : TunnelManager) (t : Tunnel) : Prop :=
  (exists k, tunnelsBySubdomain tm !! k = Some t) \/
  (exists k, tunnelsById tm !! k = Some t) \/
  (exists w l, tunnelsByWs tm !! w = Some l /\ t ∈ l).

(** The three indices agree on [t]. *)
Definition indexed (tm : TunnelManager) (t : Tunnel) : Prop :=
  tunnelsBySubdomain tm !! subdomain t = Some t /\
  tunnelsById tm !! tunnelId t = Some t /\
  exists l, tunnelsByWs tm !! ws t = Some l /\ t ∈ l.

(* ===================================================================== *)
(** * gateway-server/src/services/InspectorService.js *)
(* ===================================================================== *)

(** The argument of [InspectorService.recordRequest]. *)
Record InspectData : Type := mkInspectData {
  i_requestId : string;
  i_tunnelId : string;
  i_subdomain : string;
  i_method : string;
  i_path : string;
  i_headers : Headers;
  i_body : option string;
  i_query : jsval;
  i_timestamp : Z;
  i_clientIp : jsval;
}.

(** The argument of [InspectorService.recordResponse]. *)
Record ResponseData : Type := mkResponseData {
  r_requestId : string;
  r_tunnelId : option string;
  r_statusCode : nat;
  r_headers : option Headers;
  r_body : option string;
  r_error : option string;
  r_responseTime : Z;
  r_timestamp : Z;
}.

(** The fields of an [InspectedTraffic] that its constructor assigns, with
    the identity [it_obj] of the object.  [requestId], [tunnelId],
    [subdomain] and [request] are read off [it_request]. *)
Record InspectedTraffic : Type := mkInspectedTraffic {
  it_obj : nat;
  it_request : InspectData;
  it_createdAt : Z;
}.

Definition requestId (t : InspectedTraffic) : string := i_requestId (it_request t).

(** The fields [response] and [responseTime], which [setResponse] assigns. *)
Record ResponseSlot : Type := mkResponseSlot {
  response : ResponseData;
  responseTime : Z;
}.

Definition newline : string := String (ascii_of_N 10) EmptyString.
Definition backslash : string := String (ascii_of_N 92) EmptyString.

(** The array [parts] that [toCurl] builds. *)
Definition toCurl_parts (t : InspectedTraffic) : list string :=
  let request := it_request t in
  let parts := ["curl"] in
  let parts :=
    if negb (String.eqb (i_method request) "GET")
    then parts ++ ["-X " +:+ i_method request] else parts in
  let parts :=
    fold_left
      (fun parts kv =>
         if negb (Js.includes ["host"; "content-length"] (Js.toLowerCase (fst kv)))
         then parts ++ ["-H '" +:+ fst kv +:+ ": " +:+ snd kv +:+ "'"]
         else parts)
      (i_headers request) parts in
  let parts :=
    match i_body request with
    | Some body =>
        if Js.truthy body
        then parts ++ ["-d '" +:+ Js.replaceAll "'"%char ("'" +:+ backslash +:+ "''") body +:+ "'"]
        else parts
    | None => parts
    end in
  let url := "https://" +:+ i_subdomain request +:+ ".example.com" +:+ i_path request in
  parts ++ ["'" +:+ url +:+ "'"].

(** The separator of [parts.join(' \\\n  ')]: a space, a backslash, a line
    feed and two spaces. *)
Definition curl_separator : string := " " +:+ backslash +:+ newline +:+ "  ".

(** [InspectedTraffic.prototype.toCurl] *)
Definition toCurl (t : InspectedTraffic) : string :=
  Js.join curl_separator (toCurl_parts t).

(** The pieces of the command as the specification lists them. *)
Definition curl_method (request : InspectData) : list string :=
  if String.eqb (i_method request) "GET" then [] else ["-X " +:+ i_method request].

Definition curl_header (kv : string * string) : list string :=
  if Js.includes ["host"; "content-length"] (Js.toLowerCase (fst kv)) then []
  else ["-H '" +:+ fst kv +:+ ": " +:+ snd kv +:+ "'"].

Definition curl_body (request : InspectData) : list string :=
  match i_body request with
  | Some body =>
      if Js.truthy body
      then ["-d '" +:+ Js.replaceAll "'"%char ("'" +:+ backslash +:+ "''") body +:+ "'"]
      else []
  | None => []
  end.

(** The URL of the specification, for a public domain. *)
Definition curl_url (publicDomain : string) (request : InspectData) : string :=
  "https://" +:+ i_subdomain request +:+ "." +:+ publicDomain +:+ i_path request.

Inductive InspectorEvent : Type :=
  | Emit_request (traffic : InspectedTraffic)
  | Emit_response (traffic : InspectedTraffic) (slot : ResponseSlot).

Record InspectorService : Type := mkInspectorService {
  maxStoredRequests : nat;
  trafficByTunnel : gmap string (list InspectedTraffic);
  allTraffic : list InspectedTraffic;
  trafficByRequestId : gmap string InspectedTraffic;
  (** mutable fields of the traffic objects, by identity *)
  responses : gmap nat ResponseSlot;
  it_next : nat;
  emitted : list InspectorEvent;
}.

(** [new InspectorService(options)]:
    [options.maxStoredRequests || TUNNEL_CONFIG.MAX_STORED_REQUESTS]. *)
Definition InspectorService_new (maxStoredRequests : option nat) : InspectorService :=
  {| maxStoredRequests :=
       match maxStoredRequests with
       | Some (S n) => S n
       | _ => TUNNEL_CONFIG.MAX_STORED_REQUESTS
       end;
     trafficByTunnel := ∅; allTraffic := []; trafficByRequestId := ∅;
     responses := ∅; it_next := 0; emitted := [] |}.

(** The global loop of [enforceLimit]:
    [while (allTraffic.length > max) { removed = allTraffic.shift();
    trafficByRequestId.delete(removed.requestId) }]. *)
Fixpoint enforce_global (max : nat) (allTraffic : list InspectedTraffic)
    (byId : gmap string InspectedTraffic)
    : list InspectedTraffic * gmap string InspectedTraffic :=
  match allTraffic with
  | [] => ([], byId)
  | removed :: rest =>
      if (max <? length allTraffic)%nat
      then enforce_global max rest (delete (requestId removed) byId)
      else (allTraffic, byId)
  end.

(** The map after the deletions of the global loop, for the exchanges
    [ev] that the loop shifted out. *)
Definition purge (ev : list InspectedTraffic) (byId : gmap string InspectedTraffic)
    : gmap string InspectedTraffic :=
  fold_left (fun m e => delete (requestId e) m) ev byId.

(** The per-tunnel loop: [while (traffic.length > max / 2) traffic.shift()].
    The quotient is a floating-point one, so the test reads
    [2 * traffic.length > max]. *)
Fixpoint enforce_tunnel (max : nat) (traffic : list InspectedTraffic)
    : list InspectedTraffic :=
  match traffic with
  | [] => []
  | _ :: rest =>
      if (max <? 2 * length traffic)%nat then enforce_tunnel max rest else traffic
  end.

Definition enforceLimit (s : InspectorService) : InspectorService :=
  let '(allTraffic', byId') :=
    enforce_global (maxStoredRequests s) (allTraffic s) (trafficByRequestId s) in
  {| maxStoredRequests := maxStoredRequests s;
     trafficByTunnel := enforce_tunnel (maxStoredRequests s) <$> trafficByTunnel s;
     allTraffic := allTraffic';
     trafficByRequestId := byId';
     responses := responses s;
     it_next := it_next s;
     emitted := emitted s |}.

(** [recordRequest]; [now] is the clock read by the constructor of
    [InspectedTraffic]. *)
Definition recordRequest (request : InspectData) (now : Z) (s : InspectorService)
    : InspectedTraffic * InspectorService :=
  let traffic := {| it_obj := it_next s; it_request := request; it_createdAt := now |} in
  let stored :=
    {| maxStoredRequests := maxStoredRequests s;
       trafficByTunnel :=
         <[i_tunnelId request :=
             default [] (trafficByTunnel s !! i_tunnelId request) ++ [traffic]]>
           (trafficByTunnel s);
       allTraffic := allTraffic s ++ [traffic];
       trafficByRequestId := <[i_requestId request := traffic]> (trafficByRequestId s);
       responses := responses s;
       it_next := S (it_next s);
       emitted := emitted s |} in
  let limited := enforceLimit stored in
  (traffic,
   {| maxStoredRequests := maxStoredRequests limited;
      trafficByTunnel := trafficByTunnel limited;
      allTraffic := allTraffic limited;
      trafficByRequestId := trafficByRequestId limited;
      responses := responses limited;
      it_next := it_next limited;
      emitted := emitted limited ++ [Emit_request traffic] |}).

(** [recordResponse]: a response whose request is not in the lookup map is
    dropped. *)
Definition recordResponse (resp : ResponseData) (s : InspectorService)
    : InspectorService :=
  match trafficByRequestId s !! r_requestId resp with
  | None => s
  | Some traffic =>
      let slot := {| response := resp; responseTime := r_responseTime resp |} in
      {| maxStoredRequests := maxStoredRequests s;
         trafficByTunnel := trafficByTunnel s;
         allTraffic := allTraffic s;
         trafficByRequestId := trafficByRequestId s;
         responses := <[it_obj traffic := slot]> (responses s);
         it_next := it_next s;
         emitted := emitted s ++ [Emit_response traffic slot] |}
  end.

(** [getCurlCommand] *)
Definition getCurlCommand (requestId : string) (s : InspectorService) : option string :=
  toCurl <$> trafficByRequestId s !! requestId.


(* ===================================================================== *)
(** * gateway-server/src/services/RequestForwarder.js *)
(* ===================================================================== *)

(** The conversions of Node's [Buffer] that the forwarder uses, on byte
    sequences held as strings. *)
Class Buffer : Type := {
  (** [buf.toString('base64')] *)
  toString_base64 : string -> string;
  (** [buf.toString('utf8')] *)
  toString_utf8 : string -> string;
  (** [Buffer.from(text, 'base64')] *)
  from_base64 : string -> string;
}.

(** The members of the Express request that [forwardRequest] reads;
    [req_body] is the raw body, [None] when there is none. *)
Record HttpRequest : Type := mkHttpRequest {
  req_method : string;
  req_originalUrl : string;
  req_headers : Headers;
  req_body : option string;
  req_query : jsval;
  req_ip : jsval;
}.

(** The payload of the [http:request] frame. *)
Record HttpRequestMessage : Type := mkHttpRequestMessage {
  m_requestId : string;
  m_method : string;
  m_path : string;
  m_headers : Headers;
  m_body : option string;
  m_query : jsval;
  m_timestamp : Z;
}.

(** What the forwarder writes: JSON error replies and forwarded responses on
    the public side, frames on the tunnel's socket. *)
Inductive ForwarderEvent : Type :=
  | Http_json (status : nat) (error : string) (code : ErrorCode) (message : option string)
  | Http_send (status : nat) (headers : Headers) (body : option string)
  | Ws_send (w : WebSocket) (message : HttpRequestMessage).

Record Gateway : Type := mkGateway {
  tunnelManager : TunnelManager;
  inspectorService : InspectorService;
  output : list ForwarderEvent;
}.

(** The variables of one call of [forwardRequest] that its continuation
    after [await promise] still reads. *)
Record Exchange : Type := mkExchange {
  x_tunnel : Tunnel;
  x_requestId : string;
  x_startTime : Z;
  x_body : option string;
  x_deferred : nat;
}.

(** What one call draws before it suspends: the request identifier, the
    identity of the deferred promise, and five reads of the clock. *)
Record ForwardDraws : Type := mkForwardDraws {
  fd_requestId : string;
  fd_deferred : nat;
  fd_startTime : Z;
  fd_messageTimestamp : Z;
  fd_timestamp : Z;
  fd_createdAt : Z;
  fd_pendingStart : Z;
}.

Inductive Began : Type :=
  | Answered : Began
  | Awaiting : Exchange -> Began.

(** Applies [f] to the mutable fields of a tunnel object. *)
Definition with_tunnel (tunnel : Tunnel) (f : TunnelData -> TunnelData)
    (tm : TunnelManager) : TunnelManager :=
  {| tunnelsBySubdomain := tunnelsBySubdomain tm;
     tunnelsById := tunnelsById tm;
     tunnelsByWs := tunnelsByWs tm;
     heap := <[obj tunnel := f (heap tm !!! obj tunnel)]> (heap tm);
     next_obj := next_obj tm;
     trace := trace tm |}.

Definition settle (e : ManagerEvent) (tm : TunnelManager) : TunnelManager :=
  {| tunnelsBySubdomain := tunnelsBySubdomain tm;
     tunnelsById := tunnelsById tm;
     tunnelsByWs := tunnelsByWs tm;
     heap := heap tm;
     next_obj := next_obj tm;
     trace := trace tm ++ [e] |}.

Definition pending_of (tm : TunnelManager) (tunnel : Tunnel) : list (string * Pending) :=
  pendingRequests (heap tm !!! obj tunnel).

Section Forwarder.
Context `{Buffer}.

(** [forwardRequest] up to [await promise].  [socket_open] is
    [tunnel.ws.readyState === 1]. *)
Definition forward_begin (subdomain : string) (req : HttpRequest)
    (socket_open : bool) (d : ForwardDraws) (g : Gateway) : Began * Gateway :=
  match getTunnelBySubdomain (tunnelManager g) (Some subdomain) with
  | None =>
      (Answered,
       {| tunnelManager := tunnelManager g;
          inspectorService := inspectorService g;
          output := output g ++ [Http_json 404 "Tunnel not found" TUNNEL_NOT_FOUND None] |})
  | Some tunnel =>
      if negb socket_open then
        (Answered,
         {| tunnelManager := tunnelManager g;
            inspectorService := inspectorService g;
            output := output g ++
              [Http_json 502 "Tunnel connection unavailable" CONNECTION_CLOSED None] |})
      else
        let body :=
          match req_body req with
          | Some b => if (0 <? String.length b)%nat then Some b else None
          | None => None
          end in
        let requestMessage :=
          {| m_requestId := fd_requestId d;
             m_method := req_method req;
             m_path := req_originalUrl req;
             m_headers := req_headers req;
             m_body := toString_base64 <$> body;
             m_query := req_query req;
             m_timestamp := fd_timestamp d |} in
        let inspectData :=
          {| i_requestId := fd_requestId d;
             i_tunnelId := tunnelId tunnel;
             i_subdomain := subdomain;
             i_method := req_method req;
             i_path := req_originalUrl req;
             i_headers := req_headers req;
             i_body := toString_utf8 <$> body;
             i_query := req_query req;
             i_timestamp := fd_timestamp d;
             i_clientIp := req_ip req |} in
        let inspector :=
          snd (recordRequest inspectData (fd_createdAt d) (inspectorService g)) in
        let tm :=
          with_tunnel tunnel
            (Tunnel_addPendingRequest (fd_requestId d) (fd_deferred d) (fd_pendingStart d))
            (tunnelManager g) in
        (Awaiting {| x_tunnel := tunnel; x_requestId := fd_requestId d;
                     x_startTime := fd_startTime d; x_body := body;
                     x_deferred := fd_deferred d |},
         {| tunnelManager := tm;
            inspectorService := inspector;
            output := output g ++ [Ws_send (ws tunnel) requestMessage] |})
  end.

(** [RequestForwarder.handleResponse] *)
Definition handleResponse (tunnel : Tunnel) (requestId : string)
    (payload : HttpResponse) (tm : TunnelManager) : TunnelManager :=
  match Tunnel_getPendingRequest requestId (heap tm !!! obj tunnel) with
  | None => tm
  | Some pending =>
      settle (Resolve (deferred pending) payload)
             (with_tunnel tunnel (Tunnel_removePendingRequest requestId) tm)
  end.

(** [RequestForwarder.handleError] *)
Definition handleError (tunnel : Tunnel) (requestId : string)
    (error : string) (code : option string) (tm : TunnelManager) : TunnelManager :=
  match Tunnel_getPendingRequest requestId (heap tm !!! obj tunnel) with
  | None => tm
  | Some pending =>
      settle (Reject (deferred pending) error code)
             (with_tunnel tunnel (Tunnel_removePendingRequest requestId) tm)
  end.

(** The callback of the timer that [forwardRequest] arms. *)
Definition timeout_fires (x : Exchange) (tm : TunnelManager) : TunnelManager :=
  settle (Reject (x_deferred x) "Request timeout" None)
         (with_tunnel (x_tunnel x) (Tunnel_removePendingRequest (x_requestId x)) tm).

(** How the awaited promise settled. *)
Inductive Settlement : Type :=
  | Fulfilled (response : HttpResponse)
  | Rejected (message : string).

Definition hopByHopHeaders : list string :=
  [ "connection"; "keep-alive"; "transfer-encoding"; "upgrade" ].

(** The three reads of the clock in a continuation: for the response time,
    for the record's timestamp, and in [touch]. *)
Record FinishClock : Type := mkFinishClock {
  fc_elapsed : Z;
  fc_timestamp : Z;
  fc_touch : Z;
}.

(** The record handed to [recordResponse]: by the [try] block for a
  fulfilled promise, by the [catch] block for a rejected one. *)
Definition response_record (x : Exchange) (s : Settlement) (c : FinishClock)
  : ResponseData :=
let responseTime := (fc_elapsed c - x_startTime x)%Z in
match s with
| Fulfilled response =>
    {| r_requestId := x_requestId x;
       r_tunnelId := Some (tunnelId (x_tunnel x));
       r_statusCode := statusCode response;
       r_headers := res_headers response;
       r_body := res_body response;
       r_error := None;
       r_responseTime := responseTime;
       r_timestamp := fc_timestamp c |}
| Rejected message =>
    {| r_requestId := x_requestId x;
       r_tunnelId := Some (tunnelId (x_tunnel x));
       r_statusCode := 502;
       r_headers := None;
       r_body := None;
       r_error := Some message;
       r_responseTime := responseTime;
       r_timestamp := fc_timestamp c |}
end.

(** [body ? body.length : 0] *)
Definition body_size (x : Exchange) : nat :=
match x_body x with Some b => String.length b | None => 0 end.

(** [response.body ? Buffer.from(response.body, 'base64') : undefined] *)
Definition decoded_body (response : HttpResponse) : option string :=
match res_body response with
| Some b => if Js.truthy b then Some (from_base64 b) else None
| None => None
end.

(** [response.body ? Buffer.from(response.body, 'base64').length : 0] *)
Definition response_size (response : HttpResponse) : nat :=
match decoded_body response with Some b => String.length b | None => 0 end.

(** [forwardRequest] from [await promise] on: the rest of the [try] block
  when the promise is fulfilled, the [catch] block when it is rejected. *)
Definition forward_finish (x : Exchange) (s : Settlement) (c : FinishClock)
  (g : Gateway) : Gateway :=
match s with
| Fulfilled response =>
    let inspector := recordResponse (response_record x s c) (inspectorService g) in
    let tm :=
      with_tunnel (x_tunnel x)
        (Tunnel_recordRequest (body_size x) (response_size response) (fc_touch c))
        (tunnelManager g) in
    let headers :=
      filter (fun kv => negb (Js.includes hopByHopHeaders (Js.toLowerCase (fst kv))))
             (default [] (res_headers response)) in
    {| tunnelManager := tm;
       inspectorService := inspector;
       output := output g ++
         [Http_send (statusCode response) headers (decoded_body response)] |}
| Rejected message =>
    let inspector := recordResponse (response_record x s c) (inspectorService g) in
    let tm :=
      with_tunnel (x_tunnel x) (Tunnel_removePendingRequest (x_requestId x))
        (tunnelManager g) in
    {| tunnelManager := tm;
       inspectorService := inspector;
       output := output g ++
         [ if String.eqb message "Request timeout"
           then Http_json 504 "Gateway timeout" REQUEST_TIMEOUT None
           else Http_json 502 "Bad gateway" REQUEST_FAILED (Some message) ] |}
end.

(** The three ways an exchange that is awaiting its reply ends. *)
Inductive Outcome : Type :=
  | ResponseReceived (payload : HttpResponse)
  | ErrorReceived (error : string) (code : option string)
  | TimedOut.

(** The event that settles the promise, on the registry. *)
Definition settle_exchange (x : Exchange) (o : Outcome) (tm : TunnelManager)
    : TunnelManager :=
  match o with
  | ResponseReceived payload => handleResponse (x_tunnel x) (x_requestId x) payload tm
  | ErrorReceived error code => handleError (x_tunnel x) (x_requestId x) error code tm
  | TimedOut => timeout_fires x tm
  end.

Definition settlement_of (o : Outcome) : Settlement :=
  match o with
  | ResponseReceived payload => Fulfilled payload
  | ErrorReceived error _ => Rejected error
  | TimedOut => Rejected "Request timeout"
  end.

(** An awaiting exchange run to its end: the settling event, then the
    continuation of [forwardRequest]. *)
Definition complete (x : Exchange) (o : Outcome) (c : FinishClock) (g : Gateway)
    : Gateway :=
  forward_finish x (settlement_of o) c
    {| tunnelManager := settle_exchange x o (tunnelManager g);
       inspectorService := inspectorService g;
       output := output g |}.

End Forwarder.

(* ===================================================================== *)
(** * Base64, for an instance of [Buffer] on canonical text *)
(* ===================================================================== *)

Module Base64.

Definition alphabet : string :=
  "ABCDEFGHIJKLMNOPQRSTUVWXYZabcdefghijklmnopqrstuvwxyz0123456789+/".

Definition digit (n : N) : ascii :=
  match String.get (N.to_nat n) alphabet with
  | Some c => c
  | None => "="%char
  end.

Fixpoint index_of (c : ascii) (s : string) (i : N) : option N :=
  match s with
  | EmptyString => None
  | String d s' => if Ascii.eqb c d then Some i else index_of c s' (i + 1)%N
  end.

Definition value (c : ascii) : option N := index_of c alphabet 0%N.

Fixpoint encode_bytes (bytes : list N) : list ascii :=
  match bytes with
  | [] => []
  | [a] =>
      let n := (a * 65536)%N in
      [digit (n / 262144); digit ((n / 4096) mod 64); "="%char; "="%char]
  | [a; b] =>
      let n := (a * 65536 + b * 256)%N in
      [digit (n / 262144); digit ((n / 4096) mod 64); digit ((n / 64) mod 64);
       "="%char]
  | a :: b :: c :: rest =>
      let n := (a * 65536 + b * 256 + c)%N in
      digit (n / 262144) :: digit ((n / 4096) mod 64) :: digit ((n / 64) mod 64)
        :: digit (n mod 64) :: encode_bytes rest
  end.

(** The six-bit values of the text up to its padding; characters outside the
    alphabet are skipped. *)
Fixpoint sextets (text : list ascii) : list N :=
  match text with
  | [] => []
  | c :: rest =>
      match value c with
      | Some v => v :: sextets rest
      | None => if Ascii.eqb c "="%char then [] else sextets rest
      end
  end.

Fixpoint decode_sextets (v : list N) : list N :=
  match v with
  | a :: b :: c :: d :: rest =>
      let n := (a * 262144 + b * 4096 + c * 64 + d)%N in
      (n / 65536)%N :: ((n / 256) mod 256)%N :: (n mod 256)%N :: decode_sextets rest
  | [a; b; c] =>
      let n := (a * 262144 + b * 4096 + c * 64)%N in
      [(n / 65536)%N; ((n / 256) mod 256)%N]
  | [a; b] =>
      let n := (a * 262144 + b * 4096)%N in [(n / 65536)%N]
  | _ => []
  end.

Definition encode (bytes : string) : string :=
  string_of_list_ascii (encode_bytes (map N_of_ascii (list_ascii_of_string bytes))).

Definition decode (text : string) : string :=
  string_of_list_ascii
    (map ascii_of_N (decode_sextets (sextets (list_ascii_of_string text)))).

End Base64.

(* ===================================================================== *)
(** * The invariant of the registry *)
(* ===================================================================== *)

(** Every entry of every index is a tunnel on which the three indices agree,
    filed under its own key; a socket's array holds no tunnel twice; live
    tunnels are distinct objects, constructed before [next_obj]. *)
Record Inv (tm : TunnelManager) : Prop := mkInv {
  inv_sub : forall k t, tunnelsBySubdomain tm !! k = Some t ->
                        k = subdomain t /\ indexed tm t;
  inv_id : forall k t, tunnelsById tm !! k = Some t ->
                       k = tunnelId t /\ indexed tm t;
  inv_ws : forall w l t, tunnelsByWs tm !! w = Some l -> t ∈ l ->
                         w = ws t /\ indexed tm t;
  inv_nodup : forall w l, tunnelsByWs tm !! w = Some l -> NoDup l;
  inv_obj : forall t1 t2, indexed tm t1 -> indexed tm t2 ->
                          obj t1 = obj t2 -> t1 = t2;
  inv_next : forall t, indexed tm t -> obj t < next_obj tm;
}.

(* ===================================================================== *)
(** * Sample registries, used to exercise the statements below *)
(* ===================================================================== *)

Module Sample.

Definition draws (tunnelId : string) : Draws :=
  {| drawn_subdomains := ["k3x9q2mz"]; drawn_tunnelId := tunnelId; drawn_now := 1000 |}.

Definition request (w : WebSocket) (requested : string) : RegisterOptions :=
  {| opt_ws := w; requestedSubdomain := Some (JStr requested);
     opt_localPort := Some (JNum 8080) |}.

(** Registers [requested] for socket [w]; the registry is returned as it was
    when the generation loop does not end. *)
Definition register (w : WebSocket) (requested tunnelId : string)
    (tm : TunnelManager) : TunnelManager :=
  match registerTunnel (request w requested) (draws tunnelId) tm with
  | Some (_, tm') => tm'
  | None => tm
  end.

(** One tunnel, [demo1], on socket 1. *)
Definition one_tunnel : TunnelManager :=
  register 1 "demo1" "Ab3dEf6hIj9k" TunnelManager_new.


Definition demo1 : Tunnel :=
  {| obj := 0; tunnelId := "Ab3dEf6hIj9k"; subdomain := "demo1"; ws := 1;
     localPort := Some (JNum 8080); createdAt := 1000 |}.

Definition hello42 : Tunnel :=
  {| obj := 1; tunnelId := "Cd5fGh8jKl1m"; subdomain := "hello42"; ws := 1;
     localPort := Some (JNum 8080); createdAt := 1000 |}.

(** Three registrations on two sockets, one of them with a generated
    subdomain, then the close of one tunnel and of everything on socket 2. *)
Definition history : list Op :=
  [ OpRegister (request 1 "demo1") (draws "Ab3dEf6hIj9k");
    OpRegister (request 1 "hello42") (draws "Cd5fGh8jKl1m");
    OpRegister {| opt_ws := 2; requestedSubdomain := undefined;
                  opt_localPort := Some (JNum 3000) |} (draws "Ef7hIj0lMn3o");
    OpClose "Ab3dEf6hIj9k" None;
    OpCloseForWs 2 (Some "Client disconnected") ].

(** [demo1] with two requests in flight. *)
Definition two_pending : TunnelManager :=
  with_tunnel demo1 (Tunnel_addPendingRequest "00000000000000a2" 12 2002)
    (with_tunnel demo1 (Tunnel_addPendingRequest "00000000000000a1" 11 2001)
       one_tunnel).

Definition inspect (requestId tunnelId : string) : InspectData :=
  {| i_requestId := requestId; i_tunnelId := tunnelId; i_subdomain := "demo1";
     i_method := "GET"; i_path := "/ping"; i_headers := [("host", "demo1.localhost:3000")];
     i_body := None; i_query := Some (JObj []); i_timestamp := 1000;
     i_clientIp := Some (JStr "203.0.113.9") |}.

(** A store bounded by two exchanges, after one insert. *)
Definition inspector1 : InspectorService :=
  snd (recordRequest (inspect "00000000000000a1" "Ab3dEf6hIj9k") 1001
         (InspectorService_new (Some 2))).

(** The same store after a second insert for the same tunnel. *)
Definition inspector2 : InspectorService :=
  snd (recordRequest (inspect "00000000000000a2" "Ab3dEf6hIj9k") 1002 inspector1).

Definition traffic1 : InspectedTraffic :=
  {| it_obj := 0; it_request := inspect "00000000000000a1" "Ab3dEf6hIj9k";
     it_createdAt := 1001 |}.

Definition traffic2 : InspectedTraffic :=
  {| it_obj := 1; it_request := inspect "00000000000000a2" "Ab3dEf6hIj9k";
     it_createdAt := 1002 |}.

(** An exchange captured from a POST whose body holds a single quote. *)
Definition posted : InspectedTraffic :=
  {| it_obj := 0;
     it_request :=
       {| i_requestId := "00000000000000b1"; i_tunnelId := "Ab3dEf6hIj9k";
          i_subdomain := "demo1"; i_method := "POST"; i_path := "/x";
          i_headers := [ ("host", "demo1.localhost:3000");
                         ("content-type", "text/plain");
                         ("Content-Length", "4") ];
          i_body := Some "it's"; i_query := Some (JObj []);
          i_timestamp := 1000; i_clientIp := undefined |};
     it_createdAt := 1001 |}.

(** The default configuration: [PUBLIC_DOMAIN] unset. *)
Definition config : Config := {| httpPort := 3000; publicDomain := "localhost" |}.

(** Buffers of ASCII bytes, with base64 on canonical text. *)
Definition buffer : Buffer :=
  {| toString_base64 := Base64.encode;
     toString_utf8 := fun bytes => bytes;
     from_base64 := Base64.decode |}.

Definition gateway : Gateway :=
  {| tunnelManager := one_tunnel;
     inspectorService := InspectorService_new None;
     output := [] |}.

(** A POST of five bytes to [demo1]. *)
Definition post_hello : HttpRequest :=
  {| req_method := "POST"; req_originalUrl := "/ping";
     req_headers := [("host", "demo1.localhost:3000")];
     req_body := Some "hello"; req_query := Some (JObj []);
     req_ip := Some (JStr "203.0.113.9") |}.

Definition forward_draws : ForwardDraws :=
  {| fd_requestId := "00000000000000c1"; fd_deferred := 21; fd_startTime := 5000;
     fd_messageTimestamp := 5001; fd_timestamp := 5001; fd_createdAt := 5001; fd_pendingStart := 5002 |}.


(** The gateway once the request above is forwarded and awaits its reply. *)
Definition forwarded : Gateway :=
  snd (@forward_begin buffer "demo1" post_hello true forward_draws gateway).

(** The reply [200] with the body [pong]. *)
Definition pong : HttpResponse :=
  {| statusCode := 200;
     res_headers := Some [("content-type", "text/plain"); ("Connection", "close")];
     res_body := Some "cG9uZw==" |}.

Definition clock : FinishClock :=
  {| fc_elapsed := 5040; fc_timestamp := 5041; fc_touch := 5042 |}.

End Sample.

(* ===================================================================== *)
(** * packages/shared/src/utils.js: the remaining string helpers *)
(* ===================================================================== *)

Definition sensitiveKeys : list string :=
  [ "authorization"; "cookie"; "set-cookie"; "x-api-key" ].

(** [sanitizeHeaders]: the copy keeps every key in place; the value of a key
    whose lower-case form is sensitive is overwritten. *)
Definition sanitizeHeaders (headers : Headers) : Headers :=
  map (fun kv =>
         if Js.includes sensitiveKeys (Js.toLowerCase (fst kv))
         then (fst kv, "[REDACTED]") else kv)
      headers.

(** [str.substring(0, end)]: a negative end counts as zero, an end past the
    string as its length. *)
Definition substring_to (stop : Z) (str : string) : string :=
  String.substring 0 (Z.to_nat stop) str.

(** [truncate(str, maxLength)], on a string. *)
Definition truncate (str : string) (maxLength : Z) : string :=
  if negb (Js.truthy str) || (Z.of_nat (String.length str) <=? maxLength)%Z then str
  else substring_to (maxLength - 3) str +:+ "...".

(** The output of [generateSubdomain], nanoid's [customAlphabet] over the
    lower-case letters and the digits, of size 8. *)
Definition generated_subdomain (s : string) : Prop :=
  String.length s = 8 /\
  Forall (fun c => TUNNEL_CONFIG.alnum c = true) (list_ascii_of_string s).

(* ===================================================================== *)
(** * packages/shared/src/protocol.js: the message constructors *)
(* ===================================================================== *)

(** What [JSON.stringify] keeps of an object literal: the members whose
    value is not [undefined], in order. *)
Fixpoint defined_members (fields : list (string * jsval)) : list (string * json) :=
  match fields with
  | [] => []
  | (k, Some v) :: rest => (k, v) :: defined_members rest
  | (_, None) :: rest => defined_members rest
  end.

(** The frame [{ type, payload }] as it travels. *)
Definition frame (type : string) (payload : list (string * jsval)) : json :=
  JObj [ ("type", JStr type); ("payload", JObj (defined_members payload)) ].

(** The [body] argument of the two HTTP constructors. *)
Inductive BodyArg : Type :=
  | BodyAbsent : BodyArg
  | BodyBuffer : string -> BodyArg
  | BodyText : string -> BodyArg.

Definition headers_value (headers : Headers) : json :=
  JObj (map (fun kv => (fst kv, JStr (snd kv))) headers).

Section Constructors.
Context `{Buffer}.

(** [body ? (Buffer.isBuffer(body) ? body.toString('base64') : body) : null];
    a buffer is truthy even when empty. *)
Definition wire_body (body : BodyArg) : json :=
  match body with
  | BodyAbsent => JNull
  | BodyBuffer bytes => JStr (toString_base64 bytes)
  | BodyText text => if Js.truthy text then JStr text else JNull
  end.

Definition createTunnelRegisterMessage (subdomain localPort authToken : jsval)
    (now : Z) : json :=
  frame "tunnel:register"
    [ ("subdomain", subdomain); ("localPort", localPort); ("authToken", authToken);
      ("timestamp", Some (JNum now)) ].

Definition createTunnelRegisteredMessage (tunnelId publicUrl subdomain : string)
    (now : Z) : json :=
  frame "tunnel:registered"
    [ ("tunnelId", Some (JStr tunnelId)); ("publicUrl", Some (JStr publicUrl));
      ("subdomain", Some (JStr subdomain)); ("timestamp", Some (JNum now)) ].

Definition createHttpRequestMessage (requestId method path : string)
    (headers : Headers) (body : BodyArg) (query : jsval) (now : Z) : json :=
  frame "http:request"
    [ ("requestId", Some (JStr requestId)); ("method", Some (JStr method));
      ("path", Some (JStr path)); ("headers", Some (headers_value headers));
      ("body", Some (wire_body body)); ("query", query);
      ("timestamp", Some (JNum now)) ].

Definition createHttpResponseMessage (requestId : string) (statusCode : Z)
    (headers : Headers) (body : BodyArg) (now : Z) : json :=
  frame "http:response"
    [ ("requestId", Some (JStr requestId)); ("statusCode", Some (JNum statusCode));
      ("headers", Some (headers_value headers)); ("body", Some (wire_body body));
      ("timestamp", Some (JNum now)) ].

Definition createHttpErrorMessage (requestId error : string) (code : jsval)
    (now : Z) : json :=
  frame "http:error"
    [ ("requestId", Some (JStr requestId)); ("error", Some (JStr error));
      ("code", code); ("timestamp", Some (JNum now)) ].

Definition createPingMessage (now : Z) : json :=
  frame "ping" [ ("timestamp", Some (JNum now)) ].

Definition createPongMessage (pingTimestamp : jsval) (now : Z) : json :=
  frame "pong" [ ("pingTimestamp", pingTimestamp); ("timestamp", Some (JNum now)) ].

(** [createErrorMessage(error, code = 'GENERIC_ERROR')] *)
Definition createErrorMessage (error : string) (code : option string) (now : Z) : json :=
  frame "error"
    [ ("error", Some (JStr error));
      ("code", Some (JStr (default "GENERIC_ERROR" code)));
      ("timestamp", Some (JNum now)) ].

(** [createTunnelCloseMessage(tunnelId, reason = 'Client requested close')] *)
Definition createTunnelCloseMessage (tunnelId : string) (reason : option string)
    (now : Z) : json :=
  frame "tunnel:close"
    [ ("tunnelId", Some (JStr tunnelId));
      ("reason", Some (JStr (default "Client requested close" reason)));
      ("timestamp", Some (JNum now)) ].

(** The frames that the ten constructors build. *)
Inductive constructed : json -> Prop :=
  | built_register subdomain localPort authToken now :
      constructed (createTunnelRegisterMessage subdomain localPort authToken now)
  | built_registered tunnelId publicUrl subdomain now :
      constructed (createTunnelRegisteredMessage tunnelId publicUrl subdomain now)
  | built_request requestId method path headers body query now :
      constructed (createHttpRequestMessage requestId method path headers body query now)
  | built_response requestId statusCode headers body now :
      constructed (createHttpResponseMessage requestId statusCode headers body now)
  | built_error_reply requestId error code now :
      constructed (createHttpErrorMessage requestId error code now)
  | built_ping now : constructed (createPingMessage now)
  | built_pong pingTimestamp now : constructed (createPongMessage pingTimestamp now)
  | built_error error code now : constructed (createErrorMessage error code now)
  | built_close tunnelId reason now :
      constructed (createTunnelCloseMessage tunnelId reason now).

End Constructors.

(* ===================================================================== *)
(** * gateway-server/src/app.js and routes/publicRoutes.js: routing by host *)
(* ===================================================================== *)

(** [str.split(sep)] for a one-character separator, as a first part and the
    parts that follow it. *)
Fixpoint split_on (sep : ascii) (str : string) : string * list string :=
  match str with
  | EmptyString => (EmptyString, [])
  | String c rest =>
      let '(first, others) := split_on sep rest in
      if Ascii.eqb c sep then (EmptyString, first :: others)
      else (String c first, others)
  end.

Definition split (sep : ascii) (str : string) : list string :=
  let '(first, others) := split_on sep str in first :: others.

(** What the subdomain middleware leaves on the request. *)
Record TunnelRouting : Type := mkTunnelRouting {
  isTunnelRequest : bool;
  routed_subdomain : option string;
}.

(** The subdomain extraction middleware; [host] is [req.headers.host]. *)
Definition extractSubdomain (host : option string) : TunnelRouting :=
  let host := match host with Some h => if Js.truthy h then h else "" | None => "" end in
  let parts := split "."%char host in
  let first := hd "" parts in
  if (2 <=? length parts)%nat && negb (String.eqb first "www")
     && negb (String.eqb first "api")
  then {| isTunnelRequest := true; routed_subdomain := Some first |}
  else {| isTunnelRequest := false; routed_subdomain := None |}.

(** What the catch-all public route does with a request. *)
Inductive PublicRoute : Type :=
  | Banner : PublicRoute
  | ForwardTo : string -> PublicRoute.

(** [if (!req.isTunnelRequest || !req.subdomain)] the banner, otherwise
    [forwardRequest({ subdomain: req.subdomain, req, res })]. *)
Definition publicRoute (host : option string) : PublicRoute :=
  let r := extractSubdomain host in
  match routed_subdomain r with
  | Some subdomain =>
      if negb (isTunnelRequest r) || negb (Js.truthy subdomain) then Banner
      else ForwardTo subdomain
  | None => Banner
  end.

(** The host part of the URL that [buildPublicUrl] announces. *)
Definition public_host (config : Config) (subdomain : string) : string :=
  let port :=
    if negb (httpPort config =? 80)%N && negb (httpPort config =? 443)%N
    then ":" +:+ pretty (httpPort config) else "" in
  subdomain +:+ "." +:+ publicDomain config +:+ port.

(* ===================================================================== *)
(** * gateway-server/src/websocket/WebSocketHandler.js *)
(* ===================================================================== *)

(** The record kept per connected socket. *)
Record ClientMeta : Type := mkClientMeta {
  clientId : string;
  clientIp : string;
  connectedAt : Z;
  lastPing : Z;
  isAlive : bool;
}.

(** What the handler does on the sockets themselves. *)
Inductive SocketAction : Type :=
  | Sock_ping (w : WebSocket)
  | Sock_terminate (w : WebSocket).

Record Handler : Type := mkHandler {
  manager : TunnelManager;
  clientMetadata : gmap WebSocket ClientMeta;
  actions : list SocketAction;
}.

(** [handleConnection]: the part that stores the client's record. *)
Definition handleConnection (w : WebSocket) (remoteAddress : string) (now : Z)
    (h : Handler) : Handler :=
  {| manager := manager h;
     clientMetadata :=
       <[w := {| clientId := remoteAddress +:+ ":" +:+ pretty now;
                 clientIp := remoteAddress;
                 connectedAt := now; lastPing := now; isAlive := true |}]>
         (clientMetadata h);
     actions := actions h |}.





(** [handleTunnelClose]: [reason || 'Client requested close']. *)
Definition handleTunnelClose (w : WebSocket) (tunnelId : string)
    (reason : option string) (tm : TunnelManager) : TunnelManager :=
  let reason :=
    match reason with
    | Some r => if Js.truthy r then r else "Client requested close"
    | None => "Client requested close"
    end in
  closeTunnel tunnelId (Some reason) tm.

(** The loop of [handleHttpResponse] and of [handleHttpError]: the first
    tunnel of the socket that has the request pending. *)
Fixpoint owner_of_pending (requestId : string) (tunnels : list Tunnel)
    (tm : TunnelManager) : option Tunnel :=
  match tunnels with
  | [] => None
  | tunnel :: rest =>
      match Tunnel_getPendingRequest requestId (heap tm !!! obj tunnel) with
      | Some _ => Some tunnel
      | None => owner_of_pending requestId rest tm
      end
  end.

Definition handleHttpResponse (w : WebSocket) (requestId : string)
    (payload : HttpResponse) (tm : TunnelManager) : TunnelManager :=
  match owner_of_pending requestId (getTunnelsByWs tm w) tm with
  | Some tunnel => handleResponse tunnel requestId payload tm
  | None => tm
  end.

Definition handleHttpError (w : WebSocket) (requestId : string)
    (error : string) (code : option string) (tm : TunnelManager) : TunnelManager :=
  match owner_of_pending requestId (getTunnelsByWs tm w) tm with
  | Some tunnel => handleError tunnel requestId error code tm
  | None => tm
  end.

(* ===================================================================== *)
(** * InspectorService.js: the periodic sweep *)
(* ===================================================================== *)

(** [cleanup]; [retentionMinutes] is the field of that name, which the
    constructor sets and nothing reassigns, and [now] the clock. *)
Definition cleanup (retentionMinutes now : Z) (s : InspectorService) : InspectorService :=
  let cutoff := (now - retentionMinutes * 60 * 1000)%Z in
  {| maxStoredRequests := maxStoredRequests s;
     trafficByTunnel :=
       (fun traffic => filter (fun t => (cutoff <=? it_createdAt t)%Z) traffic)
         <$> trafficByTunnel s;
     allTraffic := filter (fun t => (cutoff <=? it_createdAt t)%Z) (allTraffic s);
     trafficByRequestId :=
       filter (fun kt => negb (it_createdAt (snd kt) <? cutoff)%Z) (trafficByRequestId s);
     responses := responses s;
     it_next := it_next s;
     emitted := emitted s |}.

(* ===================================================================== *)
(** * Sequences of registry operations, whatever they draw *)
(* ===================================================================== *)

(** A sequence of operations, run in order; [None] when a generation loop
    does not end within its draws. *)
Fixpoint exec (ops : list Op) (tm : TunnelManager) : option TunnelManager :=
  match ops with
  | [] => Some tm
  | op :: rest =>
      match step op tm with
      | Some tm' => exec rest tm'
      | None => None
      end
  end.

(** No socket owns more tunnels than the cap. *)
Definition within_cap (tm : TunnelManager) : Prop :=
  forall w l, tunnelsByWs tm !! w = Some l ->
              length l <= TUNNEL_CONFIG.MAX_TUNNELS_PER_CLIENT.

(** No reserved name is a key of the subdomain index. *)
Definition unreserved (tm : TunnelManager) : Prop :=
  forall k, In k reservedSubdomains -> tunnelsBySubdomain tm !! k = None.

(** A label: a string without a dot. *)
Definition no_dot (s : string) : Prop := ~ In "."%char (list_ascii_of_string s).

Module Fixture.

(** Two hundred letters, as in the shared tests of [truncate]. *)
Definition long_text : string :=
  string_of_list_ascii (repeat "a"%char 200).

(** Twelve requests on socket 7, the first ten of which fill the cap. *)
Definition twelve : list Op :=
  map (fun names =>
         OpRegister (Sample.request 7 (fst names)) (Sample.draws (snd names)))
    [ ("site-00", "AAAAAAAAAAA0"); ("site-01", "AAAAAAAAAAA1");
      ("site-02", "AAAAAAAAAAA2"); ("site-03", "AAAAAAAAAAA3");
      ("site-04", "AAAAAAAAAAA4"); ("site-05", "AAAAAAAAAAA5");
      ("site-06", "AAAAAAAAAAA6"); ("site-07", "AAAAAAAAAAA7");
      ("site-08", "AAAAAAAAAAA8"); ("site-09", "AAAAAAAAAAA9");
      ("site-10", "AAAAAAAAAAB0"); ("site-11", "AAAAAAAAAAB1") ].

(** A registry in which a generated subdomain is live. *)
Definition with_generated : TunnelManager :=
  Sample.register 1 "k3x9q2mz" "Ab3dEf6hIj9k" TunnelManager_new.

(** A registration without a requested subdomain; its first draw is the
    live subdomain above. *)
Definition generated_request : RegisterOptions :=
  {| opt_ws := 3; requestedSubdomain := undefined; opt_localPort := Some (JNum 5173) |}.

Definition generated_draws : Draws :=
  {| drawn_subdomains := ["k3x9q2mz"; "p0o9i8u7"]; drawn_tunnelId := "Gh9jKl2nOp5q";
     drawn_now := 3000 |}.

Definition request_headers : Headers :=
  [ ("Host", "demo1.localhost:3000"); ("Authorization", "Bearer s3cret");
    ("content-type", "application/json"); ("X-API-Key", "k-123") ].

(** The registry after the three registrations of [Sample.history]: two
    tunnels on socket 1 and one on socket 2. *)
Definition three_tunnels : TunnelManager :=
  default TunnelManager_new (run (firstn 3 Sample.history) TunnelManager_new).



End Fixture.

(* ===================================================================== *)
(** * Properties of the string primitives and of the pattern matcher *)
(* ===================================================================== *)

Lemma length_list_ascii (s : string) :
  length (list_ascii_of_string s) = String.length s.
Proof. induction s as [|c s IH]; simpl; [reflexivity | now rewrite IH]. Qed.

Lemma list_ascii_app (s1 s2 : string) :
  list_ascii_of_string (s1 +:+ s2) = list_ascii_of_string s1 ++ list_ascii_of_string s2.
Proof. induction s1 as [|c s1 IH]; simpl; [reflexivity | now rewrite IH]. Qed.

Lemma nullable_matches r : Regex.nullable r = true <-> Regex.matches r [].
Proof.
  split.
  - induction r as [| |p|r1 IH1 r2 IH2|r1 IH1 r2 IH2|r IH]; simpl; intros Hn;
      try discriminate.
    + constructor.
    + apply andb_prop in Hn as [H1 H2].
      change (@nil ascii) with (@nil ascii ++ []). constructor; auto.
    + apply orb_prop in Hn as [H1|H2]; [apply Regex.MAltL | apply Regex.MAltR]; auto.
    + constructor.
  - intros Hm. remember (@nil ascii) as s eqn:Es.
    induction Hm as [|p c Hp|r1 r2 s1 s2 H1 IH1 H2 IH2|r1 r2 s H IH|r1 r2 s H IH
                     |r|r s1 s2 H1 IH1 H2 IH2]; simpl; try reflexivity.
    + discriminate.
    + apply app_eq_nil in Es as [-> ->].
      rewrite IH1, IH2; auto.
    + rewrite IH; auto.
    + rewrite IH; auto. apply orb_true_r.
Qed.

Lemma cat_inv r1 r2 s :
  Regex.matches (Regex.Cat r1 r2) s ->
  exists s1 s2, s = s1 ++ s2 /\ Regex.matches r1 s1 /\ Regex.matches r2 s2.
Proof. intros Hm. inversion Hm; subst. eauto. Qed.

Lemma alt_inv r1 r2 s :
  Regex.matches (Regex.Alt r1 r2) s -> Regex.matches r1 s \/ Regex.matches r2 s.
Proof. intros Hm. inversion Hm; subst; auto. Qed.

Lemma class_inv p s :
  Regex.matches (Regex.Class p) s -> exists c, s = [c] /\ p c = true.
Proof. intros Hm. inversion Hm; subst. eauto. Qed.

Lemma eps_inv s : Regex.matches Regex.Eps s -> s = [].
Proof. intros Hm. now inversion Hm. Qed.

Lemma void_inv s : ~ Regex.matches Regex.Void s.
Proof. intros Hm. inversion Hm. Qed.

(** Every word of a starred language that begins with [c] splits into a
    word of the body that begins with [c] and a word of the star. *)
Lemma star_cons_inv r c s :
  Regex.matches (Regex.Star r) (c :: s) ->
  exists s1 s2, s = s1 ++ s2 /\ Regex.matches r (c :: s1) /\
                Regex.matches (Regex.Star r) s2.
Proof.
  intros Hm. remember (Regex.Star r) as r' eqn:Er. remember (c :: s) as l eqn:El.
  revert s El.
  induction Hm as [|p c' Hp|r1 r2 s1 s2 H1 IH1 H2 IH2|r1 r2 s' H IH|r1 r2 s' H IH
                   |r0|r0 s1 s2 H1 IH1 H2 IH2]; intros s El; try discriminate.
  injection Er as ->.
  destruct s1 as [|a s1].
  - simpl in El. apply IH2; auto.
  - simpl in El. injection El as -> <-. exists s1, s2. auto.
Qed.

Lemma matches_cons_cat c r1 r2 s1 s2 :
  Regex.matches r1 (c :: s1) -> Regex.matches r2 s2 ->
  Regex.matches (Regex.Cat r1 r2) (c :: s1 ++ s2).
Proof.
  intros H1 H2. change (c :: s1 ++ s2) with ((c :: s1) ++ s2). now constructor.
Qed.

Lemma deriv_matches c r s :
  Regex.matches (Regex.deriv c r) s <-> Regex.matches r (c :: s).
Proof.
  split.
  - revert s.
    induction r as [| |p|r1 IH1 r2 IH2|r1 IH1 r2 IH2|r IH]; simpl; intros s Hm.
    + now apply void_inv in Hm.
    + now apply void_inv in Hm.
    + destruct (p c) eqn:Hp; [|now apply void_inv in Hm].
      apply eps_inv in Hm as ->. now constructor.
    + destruct (Regex.nullable r1) eqn:Hn.
      * apply alt_inv in Hm as [Hm|Hm].
        -- apply cat_inv in Hm as (s1 & s2 & -> & Ha & Hb).
           apply matches_cons_cat; auto.
        -- change (c :: s) with ([] ++ c :: s). constructor; auto.
           now apply nullable_matches.
      * apply cat_inv in Hm as (s1 & s2 & -> & Ha & Hb).
        apply matches_cons_cat; auto.
    + apply alt_inv in Hm as [Hm|Hm]; [apply Regex.MAltL | apply Regex.MAltR]; auto.
    + apply cat_inv in Hm as (s1 & s2 & -> & Ha & Hb).
      change (c :: s1 ++ s2) with ((c :: s1) ++ s2). constructor; auto.
  - revert s.
    induction r as [| |p|r1 IH1 r2 IH2|r1 IH1 r2 IH2|r IH]; simpl; intros s Hm.
    + now apply void_inv in Hm.
    + apply eps_inv in Hm. discriminate.
    + apply class_inv in Hm as (c' & Hc & Hp). injection Hc as -> ->.
      rewrite Hp. constructor.
    + apply cat_inv in Hm as (s1 & s2 & Es & Ha & Hb).
      destruct s1 as [|a s1]; simpl in Es.
      * subst s2. apply nullable_matches in Ha. rewrite Ha.
        apply Regex.MAltR. auto.
      * injection Es as -> ->.
        destruct (Regex.nullable r1);
          [apply Regex.MAltL |]; constructor; auto.
    + apply alt_inv in Hm as [Hm|Hm]; [apply Regex.MAltL | apply Regex.MAltR]; auto.
    + apply star_cons_inv in Hm as (s1 & s2 & -> & Ha & Hb).
      constructor; auto.
Qed.

Lemma matchb_matches r s : Regex.matchb r s = true <-> Regex.matches r s.
Proof.
  revert r. induction s as [|c s IH]; intros r; simpl.
  - apply nullable_matches.
  - rewrite IH. apply deriv_matches.
Qed.

Lemma star_class_Forall p s :
  Regex.matches (Regex.Star (Regex.Class p)) s <-> Forall (fun c => p c = true) s.
Proof.
  split.
  - intros Hm. remember (Regex.Star (Regex.Class p)) as r eqn:Er.
    induction Hm as [|p' c Hp|r1 r2 s1 s2 H1 IH1 H2 IH2|r1 r2 s' H IH|r1 r2 s' H IH
                     |r0|r0 s1 s2 H1 IH1 H2 IH2]; try discriminate.
    + constructor.
    + injection Er as ->. apply Forall_app. split; auto.
      apply class_inv in H1 as (c & -> & Hc). repeat constructor. auto.
  - induction 1 as [|c s Hc Hs IH].
    + constructor.
    + change (c :: s) with ([c] ++ s). constructor; auto. now constructor.
Qed.

(** The language of [SUBDOMAIN_PATTERN] is the grammar of the specification. *)
Lemma SUBDOMAIN_PATTERN_grammar (s : string) :
  Regex.test TUNNEL_CONFIG.SUBDOMAIN_PATTERN s = true <-> label_grammar s.
Proof.
  unfold Regex.test, label_grammar, TUNNEL_CONFIG.SUBDOMAIN_PATTERN.
  rewrite matchb_matches. split.
  - intros Hm.
    apply cat_inv in Hm as (s1 & s2 & Es & Ha & Hb).
    apply class_inv in Ha as (c1 & -> & Hc1).
    apply cat_inv in Hb as (m & s3 & -> & Hc & Hd).
    apply class_inv in Hd as (c2 & -> & Hc2).
    exists c1, c2, m. rewrite Es. repeat split; auto.
    now apply star_class_Forall.
  - intros (c1 & c2 & mid & -> & H1 & Hmid & H2).
    change (c1 :: mid ++ [c2]) with ([c1] ++ (mid ++ [c2])).
    constructor; [now constructor|].
    constructor; [now apply star_class_Forall | now constructor].
Qed.

Lemma isValidSubdomain_spec (s : string) :
  isValidSubdomain s = true <->
  (4 <= String.length s <= 32 /\ label_grammar s).
Proof.
  unfold isValidSubdomain, TUNNEL_CONFIG.SUBDOMAIN_MIN_LENGTH,
    TUNNEL_CONFIG.SUBDOMAIN_MAX_LENGTH.
  destruct s as [|c s]; simpl Js.truthy; cbv iota beta.
  - simpl. split; [discriminate | intros [[? ?] _]; lia].
  - simpl negb. cbv iota.
    destruct (Nat.ltb_spec (String.length (String c s)) 4) as [Hlt|Hge].
    { split; [discriminate | intros [[? ?] _]; lia]. }
    destruct (Nat.ltb_spec 32 (String.length (String c s))) as [Hgt|Hle].
    { split; [discriminate | intros [[? ?] _]; lia]. }
    rewrite SUBDOMAIN_PATTERN_grammar. split; [intros; split; [lia | auto] | tauto].
Qed.

(* ===================================================================== *)
(** * Subdomain validation *)
(* ===================================================================== *)

Lemma not_valid (s : string) :
  ~ (4 <= String.length s <= 32 /\ label_grammar s) -> isValidSubdomain s = false.
Proof.
  intros Hn. destruct (isValidSubdomain s) eqn:E; [|reflexivity].
  apply isValidSubdomain_spec in E. contradiction.
Qed.

Lemma leading_dash_rejected (s : string) :
  isValidSubdomain (String "-"%char s) = false.
Proof.
  apply not_valid. intros [_ (c1 & c2 & mid & Hs & H1 & _)].
  simpl in Hs. injection Hs as <- _. discriminate H1.
Qed.

Lemma trailing_dash_rejected (s : string) :
  isValidSubdomain (s +:+ "-") = false.
Proof.
  apply not_valid. intros [_ (c1 & c2 & mid & Hs & _ & _ & H2)].
  rewrite list_ascii_app in Hs. simpl in Hs.
  change (c1 :: mid ++ [c2]) with ((c1 :: mid) ++ [c2]) in Hs.
  apply app_inj_tail in Hs as [_ <-]. discriminate H2.
Qed.

(** C9.  [isValidSubdomain] accepts exactly the strings of length 4 to 32
    that match [[a-z0-9][a-z0-9-]*[a-z0-9]]: every string of length 3 is
    rejected and a label of length 4 is accepted, a label of length 32 is
    accepted and every string of length 33 is rejected, a leading or a
    trailing dash is rejected, and a label with an interior dash is
    accepted. *)
Theorem isValidSubdomain_exact :
  (forall s : string,
      isValidSubdomain s = true <->
      (4 <= String.length s <= 32 /\ label_grammar s)) /\
  (forall s : string, String.length s = 3 -> isValidSubdomain s = false) /\
  isValidSubdomain "abcd" = true /\
  isValidSubdomain "abcdefghijklmnopqrstuvwxyz012345" = true /\
  (forall s : string, String.length s = 33 -> isValidSubdomain s = false) /\
  (forall s : string, isValidSubdomain (String "-"%char s) = false) /\
  (forall s : string, isValidSubdomain (s +:+ "-") = false) /\
  isValidSubdomain "my-app" = true.
Proof.
  split; [exact isValidSubdomain_spec|].
  split; [intros s Hl; apply not_valid; lia|].
  split; [reflexivity|].
  split; [reflexivity|].
  split; [intros s Hl; apply not_valid; lia|].
  split; [exact leading_dash_rejected|].
  split; [exact trailing_dash_rejected | reflexivity].
Qed.

Lemma isValidSubdomain_exact_witness :
  isValidSubdomain "abc" = false /\
  isValidSubdomain "abcdefghijklmnopqrstuvwxyz0123456" = false /\
  (4 <= String.length "ab-cd" <= 32 /\ label_grammar "ab-cd").
Proof.
  split; [|split].
  - apply (proj1 (proj2 isValidSubdomain_exact) "abc"). reflexivity.
  - apply (proj1 (proj2 (proj2 (proj2 (proj2 isValidSubdomain_exact))))
             "abcdefghijklmnopqrstuvwxyz0123456").
    reflexivity.
  - apply (proj1 (proj1 isValidSubdomain_exact "ab-cd")). reflexivity.
Defined.

(* ===================================================================== *)
(** * Protocol codec *)
(* ===================================================================== *)

Lemma includes_In (l : list string) (s : string) :
  Js.includes l s = true <-> In s l.
Proof.
  unfold Js.includes. rewrite existsb_exists. split.
  - intros (x & Hx & He). apply String.eqb_eq in He. now subst.
  - intros Hi. exists s. split; [assumption | apply String.eqb_refl].
Qed.

Ltac case_string_tests s :=
  repeat match goal with
         | |- context [String.eqb s ?l] =>
             destruct (String.eqb_spec s l); [subst s; vm_compute; reflexivity|]
         end.

(** The test of [parseMessage] on a frame whose [type] is the string [s]. *)
Lemma type_test_string (s : string) :
  negb (JsVal.truthy (Some (JStr s)))
  || negb (JsVal.truthy
             (MessageType_at
                (fst <$> List.find
                           (fun kv => JsVal.strict_eq_string (Some (JStr s)) (snd kv))
                           MessageType)))
  = negb (Js.includes (map snd MessageType) s).
Proof.
  unfold MessageType, Js.includes. simpl.
  case_string_tests s.
  simpl. apply orb_true_r.
Qed.

Lemma parseMessage_object_string fields s :
  JsVal.member "type" fields = Some (JStr s) ->
  parseMessage (Parsed (JObj fields)) =
  if Js.includes (map snd MessageType) s then Some (JObj fields) else None.
Proof.
  intros Hm. unfold parseMessage. simpl JsVal.prop. cbv iota beta. rewrite Hm.
  rewrite type_test_string. now destruct (Js.includes _ s).
Qed.

Lemma parseMessage_no_string_type data :
  type_of data = None -> parseMessage data = None.
Proof.
  destruct data as [|parsed]; [reflexivity|].
  destruct parsed as [|b|z|s|l|fields]; try reflexivity.
  unfold type_of, parseMessage. simpl JsVal.prop. cbv iota beta.
  destruct (JsVal.member "type" fields) as [[|b|z|s|l|fs]|]; try reflexivity.
  - intros _. simpl. now rewrite orb_true_r.
  - intros _. simpl. now rewrite orb_true_r.
  - discriminate.
Qed.

Lemma parseMessage_typed data s :
  type_of data = Some s ->
  parseMessage data =
  if Js.includes (map snd MessageType) s
  then match data with Parsed v => Some v | SyntaxError => None end
  else None.
Proof.
  destruct data as [|parsed]; [discriminate|].
  destruct parsed as [|b|z|s'|l|fields]; try discriminate.
  unfold type_of.
  destruct (JsVal.member "type" fields) as [[|b|z|s'|l|fs]|] eqn:Hm; try discriminate.
  intros [= ->]. now apply parseMessage_object_string.
Qed.

(** C3, as the code has it.  Decoding fails exactly when the text is
    malformed JSON or the frame has no [type] member that is one of the
    strings of [MessageType] (fourteen of them: the eight of the
    specification's table and [tunnel:closed], [error], [inspect:request],
    [inspect:response], [replay:request], [replay:response]); a frame that
    fails to decode is answered with an error of code [INVALID_MESSAGE], and
    no other frame is. *)
Theorem parseMessage_fails_iff (data : ParseResult) :
  (parseMessage data = None <->
   data = SyntaxError \/
   ~ (exists s, type_of data = Some s /\ In s (map snd MessageType))) /\
  (handleMessage data = ReplyError "INVALID_MESSAGE" <-> parseMessage data = None).
Proof.
  split.
  - destruct (type_of data) as [s|] eqn:Ht.
    + rewrite (parseMessage_typed _ _ Ht).
      destruct (Js.includes (map snd MessageType) s) eqn:Hi.
      * destruct data as [|v]; [discriminate|]. split; [discriminate|].
        intros [Hs|Hn]; [discriminate|]. exfalso. apply Hn.
        exists s. split; [reflexivity | now apply includes_In].
      * split; [|reflexivity]. intros _. right. intros (s' & [= <-] & Hin).
        apply includes_In in Hin. congruence.
    + rewrite (parseMessage_no_string_type _ Ht). split; [|reflexivity].
      intros _. right. intros (s' & Hs & _). discriminate.
  - unfold handleMessage. destruct (parseMessage data) as [message|] eqn:Hp.
    + split; [|discriminate].
      repeat match goal with
             | |- context [if ?b then _ else _] => destruct b
             end; try discriminate.
      destruct (payload_of message) as [[]|]; discriminate.
    + split; reflexivity.
Qed.

(** C3 as the specification states it fails on a frame whose type is
    [error]: the type is none of the strings of the specification's table,
    yet the frame decodes, and it is answered with [UNKNOWN_MESSAGE]. *)
Lemma parseMessage_accepts_error_frame :
  type_of (Parsed (JObj [("type", JStr "error")])) = Some "error" /\
  ~ In "error" spec_message_types /\
  parseMessage (Parsed (JObj [("type", JStr "error")]))
    = Some (JObj [("type", JStr "error")]) /\
  handleMessage (Parsed (JObj [("type", JStr "error")]))
    = ReplyError "UNKNOWN_MESSAGE".
Proof.
  split; [reflexivity|]. split; [|split; reflexivity].
  unfold spec_message_types. simpl. intros H.
  repeat (destruct H as [H|H]; [discriminate H|]). exact H.
Qed.

(* ===================================================================== *)
(** * Registration: the subdomain checks *)
(* ===================================================================== *)

Lemma alnum_dash_not_upper (c : ascii) :
  TUNNEL_CONFIG.alnum_dash c = true -> Js.is_upper c = false.
Proof.
  destruct c as [[] [] [] [] [] [] [] []]; vm_compute; intros H;
    first [reflexivity | discriminate H].
Qed.

Lemma alnum_alnum_dash (c : ascii) :
  TUNNEL_CONFIG.alnum c = true -> TUNNEL_CONFIG.alnum_dash c = true.
Proof. unfold TUNNEL_CONFIG.alnum_dash. intros ->. reflexivity. Qed.

Lemma toLowerCase_fixed (s : string) :
  Forall (fun c => Js.is_upper c = false) (list_ascii_of_string s) ->
  Js.toLowerCase s = s.
Proof.
  induction s as [|c s IH]; simpl; intros Hf; [reflexivity|].
  inversion Hf as [|? ? Hc Hs]; subst.
  unfold Js.lower_ascii. rewrite Hc, IH; auto.
Qed.

Lemma toLowerCase_idempotent (s : string) :
  Js.toLowerCase (Js.toLowerCase s) = Js.toLowerCase s.
Proof.
  induction s as [|c s IH]; simpl; [reflexivity|]. rewrite IH. f_equal.
  destruct c as [[] [] [] [] [] [] [] []]; vm_compute; reflexivity.
Qed.

(** A valid label has no upper-case letter: folding it changes nothing. *)
Lemma valid_is_lowercase (s : string) :
  isValidSubdomain s = true -> Js.toLowerCase s = s.
Proof.
  intros Hv. apply isValidSubdomain_spec in Hv as [_ (c1 & c2 & mid & Hs & H1 & Hm & H2)].
  apply toLowerCase_fixed. rewrite Hs.
  constructor; [auto using alnum_dash_not_upper, alnum_alnum_dash|].
  apply Forall_app. split.
  - eapply Forall_impl; [exact Hm|]. intros c Hc. now apply alnum_dash_not_upper.
  - repeat constructor. auto using alnum_dash_not_upper, alnum_alnum_dash.
Qed.

Lemma valid_is_truthy (s : string) :
  isValidSubdomain s = true -> Js.truthy s = true.
Proof. destruct s; [discriminate | reflexivity]. Qed.

Lemma has_spec {K V} `{Countable K} (m : gmap K V) (k : K) :
  has m k = true <-> is_Some (m !! k).
Proof. unfold has. apply bool_decide_eq_true. Qed.

Lemma has_false {K V} `{Countable K} (m : gmap K V) (k : K) :
  has m k = false <-> m !! k = None.
Proof.
  unfold has. rewrite bool_decide_eq_false. rewrite <- eq_None_not_Some. tauto.
Qed.

Lemma choose_invalid tm (v : jsval) draws :
  JsVal.truthy v = true -> isValidSubdomainValue v = false ->
  choose_subdomain tm v draws
  = Some (inl (Failure "Invalid subdomain format" INVALID_SUBDOMAIN)).
Proof. intros Ht Hv. unfold choose_subdomain. now rewrite Ht, Hv. Qed.

Lemma choose_valid tm (r : string) draws :
  isValidSubdomain r = true ->
  choose_subdomain tm (Some (JStr r)) draws =
  if Js.includes reservedSubdomains r then
    Some (inl (Failure "Subdomain is reserved" SUBDOMAIN_TAKEN))
  else if has (tunnelsBySubdomain tm) r then
    Some (inl (Failure "Subdomain is already in use" SUBDOMAIN_TAKEN))
  else Some (inr r).
Proof.
  intros Hv. unfold choose_subdomain, isValidSubdomainValue.
  simpl JsVal.truthy. simpl JsVal.is_string.
  rewrite (valid_is_truthy _ Hv), Hv, (valid_is_lowercase _ Hv). reflexivity.
Qed.

(** A value that passes validation is a string that passes it. *)
Lemma valid_value_inv (v : jsval) :
  isValidSubdomainValue v = true ->
  exists r, v = Some (JStr r) /\ isValidSubdomain r = true.
Proof.
  unfold isValidSubdomainValue.
  destruct (negb (JsVal.truthy v) || negb (JsVal.is_string v)); [discriminate|].
  destruct v as [[| | |r| |]|]; try discriminate. eauto.
Qed.

(** An early return of the subdomain checks leaves the registry as it was. *)
Lemma registerTunnel_early options d tm failure :
  choose_subdomain tm (requestedSubdomain options) (drawn_subdomains d)
  = Some (inl failure) ->
  registerTunnel options d tm = Some (failure, tm).
Proof. intros Hc. unfold registerTunnel. now rewrite Hc. Qed.

Lemma generate_loop_free tm draws s :
  generate_loop tm draws = Some s ->
  ~ In s reservedSubdomains /\ tunnelsBySubdomain tm !! s = None.
Proof.
  induction draws as [|c rest IH]; cbn [generate_loop]; [discriminate|].
  destruct (has (tunnelsBySubdomain tm) c) eqn:Hh; cbn [orb]; [exact IH|].
  destruct (Js.includes reservedSubdomains c) eqn:Hr; [exact IH|].
  intros [= <-]. split.
  - rewrite <- includes_In. congruence.
  - now apply has_false.
Qed.

(** The generation loop ends as soon as one of the draws is free. *)
Lemma generate_loop_ends tm draws s :
  In s draws -> ~ In s reservedSubdomains -> tunnelsBySubdomain tm !! s = None ->
  exists s', generate_loop tm draws = Some s'.
Proof.
  intros Hin Hres Hfree. induction draws as [|c rest IH]; [contradiction|].
  cbn [generate_loop].
  destruct (has (tunnelsBySubdomain tm) c || Js.includes reservedSubdomains c) eqn:Hc;
    [|eauto].
  destruct Hin as [->|Hin]; [|auto].
  apply orb_prop in Hc as [Hc|Hc].
  - apply has_spec in Hc as [x Hx]. congruence.
  - apply includes_In in Hc. contradiction.
Qed.

(** With a requested subdomain the call always returns. *)
Lemma registerTunnel_requested_returns options d tm :
  JsVal.truthy (requestedSubdomain options) = true ->
  exists result tm', registerTunnel options d tm = Some (result, tm').
Proof.
  intros Ht. unfold registerTunnel, choose_subdomain. rewrite Ht.
  destruct (isValidSubdomainValue _); cbn [negb]; [|eauto].
  destruct (requestedSubdomain options) as [[| | |r| |]|]; eauto.
  destruct (Js.includes _ _); [eauto|].
  destruct (has _ _); [eauto|].
  destruct (_ <=? _)%nat; eauto.
Qed.

(** A subdomain that passed the checks is neither reserved nor live, and
    when it was requested it is the requested string itself, a valid one. *)
Lemma choose_passed tm (v : jsval) draws s :
  choose_subdomain tm v draws = Some (inr s) ->
  ~ In s reservedSubdomains /\ tunnelsBySubdomain tm !! s = None /\
  (JsVal.truthy v = true -> v = Some (JStr s) /\ isValidSubdomain s = true).
Proof.
  unfold choose_subdomain. destruct (JsVal.truthy v) eqn:Ht.
  - destruct (isValidSubdomainValue v) eqn:Hv; cbn [negb]; [|discriminate].
    apply valid_value_inv in Hv as (r & -> & Hr). cbv beta iota.
    rewrite (valid_is_lowercase _ Hr).
    destruct (Js.includes reservedSubdomains r) eqn:Hi; [discriminate|].
    destruct (has (tunnelsBySubdomain tm) r) eqn:Hh; [discriminate|].
    intros [= <-]. split; [|split].
    + rewrite <- includes_In. congruence.
    + now apply has_false.
    + auto.
  - destruct (generate_loop tm draws) as [g|] eqn:Hg; cbn [fmap option_fmap option_map];
      [|discriminate].
    intros [= <-]. apply generate_loop_free in Hg as [? ?].
    split; [|split]; auto. discriminate.
Qed.

Lemma requested_taken options d tm r :
  requestedSubdomain options = Some (JStr r) -> isValidSubdomain r = true ->
  In r reservedSubdomains \/ is_Some (tunnelsBySubdomain tm !! r) ->
  exists error, registerTunnel options d tm = Some (Failure error SUBDOMAIN_TAKEN, tm).
Proof.
  intros Hr Hv Ht.
  destruct (Js.includes reservedSubdomains r) eqn:Hi.
  - eexists. apply registerTunnel_early. rewrite Hr, (choose_valid _ _ _ Hv), Hi.
    reflexivity.
  - destruct Ht as [Hin|Hlive]; [apply includes_In in Hin; congruence|].
    apply has_spec in Hlive.
    eexists. apply registerTunnel_early.
    rewrite Hr, (choose_valid _ _ _ Hv), Hi, Hlive. reflexivity.
Qed.

Lemma requested_invalid options d tm :
  JsVal.truthy (requestedSubdomain options) = true ->
  isValidSubdomainValue (requestedSubdomain options) = false ->
  registerTunnel options d tm
  = Some (Failure "Invalid subdomain format" INVALID_SUBDOMAIN, tm).
Proof.
  intros Ht Hv. apply registerTunnel_early. now apply choose_invalid.
Qed.

(** C1, as the code has it.  For every call of [registerTunnel] with a
    requested subdomain: when the request fails the grammar the result is the
    error [INVALID_SUBDOMAIN]; when it passes the grammar and is reserved or
    held by a live tunnel the result is an error [SUBDOMAIN_TAKEN]; in both
    cases the registry that comes back is the one that went in, so none of
    the three maps is changed. *)
Theorem registerTunnel_rejections (options : RegisterOptions) (d : Draws)
    (tm : TunnelManager) :
  JsVal.truthy (requestedSubdomain options) = true ->
  (isValidSubdomainValue (requestedSubdomain options) = false ->
   registerTunnel options d tm
   = Some (Failure "Invalid subdomain format" INVALID_SUBDOMAIN, tm)) /\
  (forall r : string,
      requestedSubdomain options = Some (JStr r) ->
      isValidSubdomain r = true ->
      In r reservedSubdomains \/ is_Some (tunnelsBySubdomain tm !! r) ->
      exists error,
        registerTunnel options d tm = Some (Failure error SUBDOMAIN_TAKEN, tm)).
Proof.
  intros Ht. split.
  - now apply requested_invalid.
  - intros r. apply requested_taken.
Qed.

Lemma registerTunnel_rejections_witness :
  (exists error,
      registerTunnel (Sample.request 2 "demo1") (Sample.draws "Zz9yXx8wVv7u")
        Sample.one_tunnel
      = Some (Failure error SUBDOMAIN_TAKEN, Sample.one_tunnel)) /\
  registerTunnel (Sample.request 2 "-demo") (Sample.draws "Zz9yXx8wVv7u")
    Sample.one_tunnel
  = Some (Failure "Invalid subdomain format" INVALID_SUBDOMAIN, Sample.one_tunnel).
Proof.
  split.
  - apply (proj2 (registerTunnel_rejections (Sample.request 2 "demo1")
                    (Sample.draws "Zz9yXx8wVv7u") Sample.one_tunnel eq_refl)
             "demo1" eq_refl eq_refl).
    right. vm_compute. eexists. reflexivity.
  - apply (proj1 (registerTunnel_rejections (Sample.request 2 "-demo")
                    (Sample.draws "Zz9yXx8wVv7u") Sample.one_tunnel eq_refl)).
    reflexivity.
Defined.

(** C1 as stated fails on the reserved name [api]: it is reserved, and the
    call answers [INVALID_SUBDOMAIN], not [SUBDOMAIN_TAKEN], because its
    three characters fail the length test of the grammar first. *)
Lemma register_api_is_invalid :
  In "api" reservedSubdomains /\
  registerTunnel (Sample.request 1 "api") (Sample.draws "Ab3dEf6hIj9k")
    TunnelManager_new
  = Some (Failure "Invalid subdomain format" INVALID_SUBDOMAIN, TunnelManager_new).
Proof. split; [simpl; auto | reflexivity]. Qed.

(* ===================================================================== *)
(** * Case folding of subdomains *)
(* ===================================================================== *)

(** An early return of the subdomain checks is a failure, and its code is
    one of the two subdomain codes or, for a truthy value of another type
    that slipped past validation, the code of the [catch] block. *)
Lemma choose_early_failure tm (v : jsval) draws res :
  choose_subdomain tm v draws = Some (inl res) ->
  exists error code, res = Failure error code /\ code <> TUNNEL_LIMIT_EXCEEDED.
Proof.
  unfold choose_subdomain. destruct (JsVal.truthy v).
  - destruct (isValidSubdomainValue v); cbn [negb].
    + destruct v as [[| | |r| |]|];
        try (intros [= <-]; do 2 eexists; split; [reflexivity | discriminate]).
      destruct (Js.includes _ _);
        [intros [= <-]; do 2 eexists; split; [reflexivity | discriminate]|].
      destruct (has _ _); [|discriminate].
      intros [= <-]; do 2 eexists; split; [reflexivity | discriminate].
    + intros [= <-]; do 2 eexists; split; [reflexivity | discriminate].
  - destruct (generate_loop _ _); discriminate.
Qed.

Lemma registerTunnel_success_inv options d tm t tm' :
  registerTunnel options d tm = Some (Success t, tm') ->
  exists s,
    choose_subdomain tm (requestedSubdomain options) (drawn_subdomains d)
    = Some (inr s) /\
    length (getTunnelsByWs tm (opt_ws options)) < TUNNEL_CONFIG.MAX_TUNNELS_PER_CLIENT /\
    t = {| obj := next_obj tm; tunnelId := drawn_tunnelId d; subdomain := s;
           ws := opt_ws options; localPort := opt_localPort options;
           createdAt := drawn_now d |} /\
    tunnelsBySubdomain tm' = <[s := t]> (tunnelsBySubdomain tm) /\
    tunnelsById tm' = <[drawn_tunnelId d := t]> (tunnelsById tm) /\
    tunnelsByWs tm' =
      <[opt_ws options := getTunnelsByWs tm (opt_ws options) ++ [t]]> (tunnelsByWs tm) /\
    heap tm' = <[next_obj tm := TunnelData_new (drawn_now d)]> (heap tm) /\
    next_obj tm' = S (next_obj tm) /\
    trace tm' = trace tm ++ [Emit_tunnel_created t].
Proof.
  unfold registerTunnel, getTunnelsByWs.
  destruct (choose_subdomain _ _ _) as [[failure|s]|] eqn:Hc; try discriminate.
  - intros [= -> _]. apply choose_early_failure in Hc as (e & c & He & _).
    discriminate.
  - destruct (Nat.leb_spec TUNNEL_CONFIG.MAX_TUNNELS_PER_CLIENT
                (length (default [] (tunnelsByWs tm !! opt_ws options)))) as [Hle|Hlt];
      [discriminate|].
    intros [= <- <-]. exists s. simpl. repeat split; auto.
Qed.

(** C8, as the code has it.  Registration validates the requested string
    before it folds it: a request with an upper-case letter is refused with
    [INVALID_SUBDOMAIN] and changes nothing; a request that is accepted is
    already in lower case and is registered as it is, and every case variant
    of it then finds the new tunnel.  [getTunnelBySubdomain] folds its
    argument: two labels that differ in case only give the same answer, a
    case variant of a lower-case key finds the tunnel under that key, and the
    answer is nothing exactly when no tunnel is held under the folded label. *)
Theorem subdomain_case_folding :
  (forall options d tm r,
      requestedSubdomain options = Some (JStr r) -> Js.truthy r = true ->
      Js.toLowerCase r <> r ->
      registerTunnel options d tm
      = Some (Failure "Invalid subdomain format" INVALID_SUBDOMAIN, tm)) /\
  (forall options d tm r t tm',
      requestedSubdomain options = Some (JStr r) -> Js.truthy r = true ->
      registerTunnel options d tm = Some (Success t, tm') ->
      Js.toLowerCase r = r /\ subdomain t = r /\
      forall label, Js.toLowerCase label = r ->
                    getTunnelBySubdomain tm' (Some label) = Some t) /\
  (forall tm l1 l2,
      Js.toLowerCase l1 = Js.toLowerCase l2 ->
      getTunnelBySubdomain tm (Some l1) = getTunnelBySubdomain tm (Some l2)) /\
  (forall tm k t label,
      tunnelsBySubdomain tm !! k = Some t -> Js.toLowerCase k = k ->
      Js.toLowerCase label = k ->
      getTunnelBySubdomain tm (Some label) = Some t) /\
  (forall tm label,
      getTunnelBySubdomain tm (Some label) = None <->
      tunnelsBySubdomain tm !! Js.toLowerCase label = None).
Proof.
  split; [|split; [|split; [|split]]].
  - intros options d tm r Hr Ht Hne.
    apply requested_invalid; rewrite Hr; [exact Ht|].
    unfold isValidSubdomainValue. simpl JsVal.truthy. simpl JsVal.is_string.
    rewrite Ht. cbn [negb orb].
    destruct (isValidSubdomain r) eqn:Hv; [|reflexivity].
    apply valid_is_lowercase in Hv. contradiction.
  - intros options d tm r t tm' Hr Ht Hreg.
    apply registerTunnel_success_inv in Hreg
      as (s & Hc & _ & Hrec & Hsub & _).
    rewrite Hr in Hc. apply choose_passed in Hc as (_ & _ & Hreq).
    destruct (Hreq Ht) as [[= <-] Hv].
    split; [now apply valid_is_lowercase|]. split; [now rewrite Hrec|].
    intros label Hl. unfold getTunnelBySubdomain. rewrite Hsub, Hl.
    apply lookup_insert_eq.
  - intros tm l1 l2 Hl. unfold getTunnelBySubdomain. now rewrite Hl.
  - intros tm k t label Hk _ Hl. unfold getTunnelBySubdomain. now rewrite Hl.
  - intros tm label. reflexivity.
Qed.

Lemma subdomain_case_folding_witness :
  getTunnelBySubdomain Sample.one_tunnel (Some "DEMO1") = Some Sample.demo1 /\
  getTunnelBySubdomain Sample.one_tunnel (Some "Demo1")
  = getTunnelBySubdomain Sample.one_tunnel (Some "demo1").
Proof.
  split.
  - apply (proj2 (proj2 (proj1 (proj2 subdomain_case_folding)
                           (Sample.request 1 "demo1") (Sample.draws "Ab3dEf6hIj9k")
                           TunnelManager_new "demo1" Sample.demo1 Sample.one_tunnel
                           eq_refl eq_refl eq_refl))
             "DEMO1").
    reflexivity.
  - apply (proj1 (proj2 (proj2 subdomain_case_folding)) Sample.one_tunnel
             "Demo1" "demo1").
    reflexivity.
Defined.

(** C8 as stated fails on [Demo1]: it differs from the valid label [demo1]
    in case only, and its registration is refused. *)
Lemma register_Demo1_is_invalid :
  isValidSubdomain "demo1" = true /\
  Js.toLowerCase "Demo1" = "demo1" /\
  registerTunnel (Sample.request 1 "Demo1") (Sample.draws "Ab3dEf6hIj9k")
    TunnelManager_new
  = Some (Failure "Invalid subdomain format" INVALID_SUBDOMAIN, TunnelManager_new).
Proof. repeat split; reflexivity. Qed.

(* ===================================================================== *)
(** * The per-channel cap is tested after the subdomain checks *)
(* ===================================================================== *)




(* ===================================================================== *)
(** * Inspector store: bounds and eviction *)
(* ===================================================================== *)

Lemma purge_lookup ev (byId : gmap string InspectedTraffic) (k : string) :
  purge ev byId !! k = if decide (k ∈ map requestId ev) then None else byId !! k.
Proof.
  unfold purge. revert byId.
  induction ev as [|e ev IH]; intros byId; cbn [fold_left map].
  - rewrite decide_False; [reflexivity | apply not_elem_of_nil].
  - rewrite IH. destruct (decide (k ∈ map requestId ev)) as [Hin|Hnin].
    + rewrite decide_True; [reflexivity | now right].
    + destruct (decide (k = requestId e)) as [->|Hne].
      * rewrite decide_True; [apply lookup_delete_eq | now left].
      * rewrite decide_False; [apply lookup_delete_ne; congruence|].
        intros [->|?]%elem_of_cons; contradiction.
Qed.

(** The global loop shifts a prefix out, keeps at most [max] exchanges, and
    deletes from the map the identifiers of what it shifted out. *)
Lemma enforce_global_spec max l (byId : gmap string InspectedTraffic) :
  exists ev,
    l = ev ++ fst (enforce_global max l byId) /\
    length (fst (enforce_global max l byId)) <= max /\
    snd (enforce_global max l byId) = purge ev byId /\
    (length l <= max -> ev = []).
Proof.
  revert byId. induction l as [|x l IH]; intros byId.
  - exists []. simpl. repeat split; auto. lia.
  - cbn [enforce_global].
    destruct (Nat.ltb_spec max (length (x :: l))) as [Hlt|Hge].
    + destruct (IH (delete (requestId x) byId)) as (ev & Hl & Hlen & Hp & _).
      exists (x :: ev). repeat split; auto.
      * simpl. now rewrite <- Hl.
      * intros Hle. lia.
    + exists []. repeat split; auto.
Qed.





(* ===================================================================== *)
(** * The registry keeps its three indices in agreement *)
(* ===================================================================== *)

Lemma Inv_new : Inv TunnelManager_new.
Proof.
  constructor; unfold indexed; simpl.
  - intros k t Hk. now rewrite lookup_empty in Hk.
  - intros k t Hk. now rewrite lookup_empty in Hk.
  - intros w l t Hw. now rewrite lookup_empty in Hw.
  - intros w l Hw. now rewrite lookup_empty in Hw.
  - intros t1 t2 [H1 _]. now rewrite lookup_empty in H1.
  - intros t [H1 _]. now rewrite lookup_empty in H1.
Qed.

Lemma registerTunnel_failure_inv options d tm error code tm' :
  registerTunnel options d tm = Some (Failure error code, tm') -> tm' = tm.
Proof.
  unfold registerTunnel.
  destruct (choose_subdomain _ _ _) as [[failure|s]|]; try discriminate.
  - now intros [= _ <-].
  - destruct (_ <=? _)%nat; [now intros [= _ _ <-] | discriminate].
Qed.

Section Registered.
Variables (tm tm' : TunnelManager) (t : Tunnel).
Hypothesis Hinv : Inv tm.
Hypothesis Hsub :
  tunnelsBySubdomain tm' = <[subdomain t := t]> (tunnelsBySubdomain tm).
Hypothesis Hid : tunnelsById tm' = <[tunnelId t := t]> (tunnelsById tm).
Hypothesis Hws :
  tunnelsByWs tm' = <[ws t := getTunnelsByWs tm (ws t) ++ [t]]> (tunnelsByWs tm).
Hypothesis Hnext : next_obj tm' = S (next_obj tm).
Hypothesis Hobj : obj t = next_obj tm.
Hypothesis Hfree_sub : tunnelsBySubdomain tm !! subdomain t = None.
Hypothesis Hfree_id : tunnelsById tm !! tunnelId t = None.

Lemma old_members l :
  tunnelsByWs tm !! ws t = Some l -> getTunnelsByWs tm (ws t) = l.
Proof. unfold getTunnelsByWs. now intros ->. Qed.

Lemma member_of_old x :
  x ∈ getTunnelsByWs tm (ws t) ->
  exists l, tunnelsByWs tm !! ws t = Some l /\ x ∈ l.
Proof.
  unfold getTunnelsByWs. destruct (tunnelsByWs tm !! ws t) as [l|]; simpl.
  - eauto.
  - intros Hx. now apply elem_of_nil in Hx.
Qed.

Lemma indexed_registered_new : indexed tm' t.
Proof.
  unfold indexed. rewrite Hsub, Hid, Hws, !lookup_insert_eq.
  repeat split; auto. eexists. split; [reflexivity|].
  apply elem_of_app. right. apply list_elem_of_singleton. reflexivity.
Qed.

Lemma indexed_registered_old x : indexed tm x -> indexed tm' x.
Proof.
  intros (H1 & H2 & l & H3 & H4). unfold indexed.
  rewrite Hsub, Hid, Hws.
  rewrite lookup_insert_ne by congruence.
  rewrite lookup_insert_ne by congruence.
  repeat split; auto.
  destruct (decide (ws t = ws x)) as [He|Hne].
  - rewrite He, lookup_insert_eq. eexists. split; [reflexivity|].
    apply elem_of_app. left. rewrite <- He, (old_members l); [exact H4|].
    now rewrite He.
  - rewrite lookup_insert_ne by exact Hne. eauto.
Qed.

Lemma indexed_registered_inv x : indexed tm' x -> x = t \/ indexed tm x.
Proof.
  intros (H1 & H2 & l & H3 & H4).
  rewrite Hsub in H1. rewrite Hid in H2. rewrite Hws in H3.
  apply lookup_insert_Some in H1 as [[_ ->]|[Hn1 H1]]; [now left|].
  apply lookup_insert_Some in H2 as [[_ ->]|[Hn2 H2]]; [now left|].
  apply lookup_insert_Some in H3 as [[He <-]|[Hn3 H3]].
  - apply elem_of_app in H4 as [H4|H4].
    + apply member_of_old in H4 as (l & Hl & Hx). right.
      repeat split; auto. exists l. now rewrite <- He.
    + apply list_elem_of_singleton in H4. now left.
  - right. repeat split; auto. eauto.
Qed.

Lemma new_not_indexed : ~ indexed tm t.
Proof. intros (_ & H2 & _). congruence. Qed.

Lemma Inv_registered : Inv tm'.
Proof.
  constructor.
  - intros k x Hk. rewrite Hsub in Hk.
    apply lookup_insert_Some in Hk as [[<- <-]|[Hn Hk]].
    + split; [reflexivity | apply indexed_registered_new].
    + apply (inv_sub _ Hinv) in Hk as [-> Hx].
      split; [reflexivity | now apply indexed_registered_old].
  - intros k x Hk. rewrite Hid in Hk.
    apply lookup_insert_Some in Hk as [[<- <-]|[Hn Hk]].
    + split; [reflexivity | apply indexed_registered_new].
    + apply (inv_id _ Hinv) in Hk as [-> Hx].
      split; [reflexivity | now apply indexed_registered_old].
  - intros w l x Hw Hx. rewrite Hws in Hw.
    apply lookup_insert_Some in Hw as [[<- <-]|[Hn Hw]].
    + apply elem_of_app in Hx as [Hx|Hx].
      * apply member_of_old in Hx as (l & Hl & Hx).
        destruct (inv_ws _ Hinv _ _ _ Hl Hx) as [Hw Hi].
        split; [exact Hw | now apply indexed_registered_old].
      * apply list_elem_of_singleton in Hx as ->.
        split; [reflexivity | apply indexed_registered_new].
    + destruct (inv_ws _ Hinv _ _ _ Hw Hx) as [-> Hi].
      split; [reflexivity | now apply indexed_registered_old].
  - intros w l Hw. rewrite Hws in Hw.
    apply lookup_insert_Some in Hw as [[<- <-]|[Hn Hw]].
    + apply NoDup_app. split; [|split].
      * unfold getTunnelsByWs.
        destruct (tunnelsByWs tm !! ws t) as [l|] eqn:Hl; simpl.
        -- exact (inv_nodup _ Hinv _ _ Hl).
        -- constructor.
      * intros x Hx Hx'. apply list_elem_of_singleton in Hx' as ->.
        apply member_of_old in Hx as (l & Hl & Hx).
        destruct (inv_ws _ Hinv _ _ _ Hl Hx) as [_ Hi].
        now apply new_not_indexed.
      * apply NoDup_singleton.
    + exact (inv_nodup _ Hinv _ _ Hw).
  - intros t1 t2 H1 H2 He.
    apply indexed_registered_inv in H1 as [->|H1];
      apply indexed_registered_inv in H2 as [->|H2]; auto.
    + apply (inv_next _ Hinv) in H2. lia.
    + apply (inv_next _ Hinv) in H1. lia.
    + exact (inv_obj _ Hinv _ _ H1 H2 He).
  - intros x Hx. rewrite Hnext.
    apply indexed_registered_inv in Hx as [->|Hx]; [lia|].
    apply (inv_next _ Hinv) in Hx. lia.
Qed.

End Registered.

Lemma Inv_registerTunnel options d tm result tm' :
  Inv tm -> tunnelsById tm !! drawn_tunnelId d = None ->
  registerTunnel options d tm = Some (result, tm') -> Inv tm'.
Proof.
  intros Hinv Hfresh Hreg. destruct result as [t|error code].
  - apply registerTunnel_success_inv in Hreg
      as (s & Hc & _ & Ht & Hsub & Hid & Hws & _ & Hnext & _).
    apply choose_passed in Hc as (_ & Hfree & _).
    apply (Inv_registered tm tm' t Hinv); subst t; simpl; auto.
  - apply registerTunnel_failure_inv in Hreg. now subst.
Qed.

Lemma splice_out_subset x t l : x ∈ splice_out t l -> x ∈ l.
Proof.
  induction l as [|y l IH]; simpl; [auto|].
  destruct (same_object y t).
  - intros Hx. now right.
  - intros [->|Hx]%elem_of_cons; [now left | right; auto].
Qed.

Lemma splice_out_keeps x t l : x ∈ l -> obj x <> obj t -> x ∈ splice_out t l.
Proof.
  intros Hx Hne. induction l as [|y l IH]; simpl; [exact Hx|].
  apply elem_of_cons in Hx as [->|Hx].
  - unfold same_object. destruct (Nat.eqb_spec (obj y) (obj t)); [contradiction|].
    now left.
  - destruct (same_object y t); [exact Hx | right; auto].
Qed.

Lemma splice_out_removes t l :
  NoDup l -> (forall x, x ∈ l -> obj x = obj t -> x = t) -> t ∉ splice_out t l.
Proof.
  induction 1 as [|y l Hy Hl IH]; simpl; intros Hobj.
  - apply not_elem_of_nil.
  - unfold same_object. destruct (Nat.eqb_spec (obj y) (obj t)) as [He|Hne].
    + assert (y = t) as -> by (apply Hobj; [now left | exact He]). exact Hy.
    + intros [->|Ht]%elem_of_cons; [contradiction|].
      revert Ht. apply IH. intros x Hx. apply Hobj. now right.
Qed.

Lemma splice_out_NoDup t l : NoDup l -> NoDup (splice_out t l).
Proof.
  induction 1 as [|y l Hy Hl IH]; simpl; [constructor|].
  destruct (same_object y t); [exact Hl|].
  constructor; [|exact IH]. intros Hin. apply Hy. now apply splice_out_subset in Hin.
Qed.

Lemma closeTunnel_absent tunnelId reason tm :
  tunnelsById tm !! tunnelId = None -> closeTunnel tunnelId reason tm = tm.
Proof. intros Hn. unfold closeTunnel. now rewrite Hn. Qed.

Lemma closeTunnel_found tunnelId reason tm t :
  tunnelsById tm !! tunnelId = Some t ->
  tunnelsBySubdomain (closeTunnel tunnelId reason tm)
    = delete (subdomain t) (tunnelsBySubdomain tm) /\
  tunnelsById (closeTunnel tunnelId reason tm) = delete tunnelId (tunnelsById tm) /\
  tunnelsByWs (closeTunnel tunnelId reason tm) = ws_index_without t tm /\
  next_obj (closeTunnel tunnelId reason tm) = next_obj tm /\
  pending_of (closeTunnel tunnelId reason tm) t = [] /\
  trace (closeTunnel tunnelId reason tm)
    = trace tm
      ++ map (fun entry => Reject (deferred (snd entry)) "Tunnel closed" None)
             (pending_of tm t)
      ++ [Emit_tunnel_closed t (default "Tunnel closed" reason)].
Proof.
  intros Hs. unfold closeTunnel, pending_of. rewrite Hs. simpl.
  repeat split; auto. now rewrite lookup_total_insert_eq.
Qed.

Section Closed.
Variables (tm tm' : TunnelManager) (t : Tunnel).
Hypothesis Hinv : Inv tm.
Hypothesis Hlive : indexed tm t.
Hypothesis Hsub :
  tunnelsBySubdomain tm' = delete (subdomain t) (tunnelsBySubdomain tm).
Hypothesis Hid : tunnelsById tm' = delete (tunnelId t) (tunnelsById tm).
Hypothesis Hws : tunnelsByWs tm' = ws_index_without t tm.
Hypothesis Hnext : next_obj tm' = next_obj tm.

Lemma ws_without_lookup w l :
  ws_index_without t tm !! w = Some l ->
  exists l0, tunnelsByWs tm !! w = Some l0 /\
             l = if decide (w = ws t) then splice_out t l0 else l0.
Proof.
  unfold ws_index_without. destruct Hlive as (_ & _ & l0 & Hl0 & Ht). rewrite Hl0.
  cbv zeta. destruct (Nat.eqb_spec (length (splice_out t l0)) 0) as [He|Hne].
  - intros [Hn Hw]%lookup_delete_Some. exists l.
    rewrite decide_False by congruence. auto.
  - intros [[<- <-]|[Hn Hw]]%lookup_insert_Some.
    + exists l0. rewrite decide_True by reflexivity. auto.
    + exists l. rewrite decide_False by congruence. auto.
Qed.

Lemma other_object x : indexed tm x -> x <> t -> obj x <> obj t.
Proof. intros Hx Hne He. apply Hne. exact (inv_obj _ Hinv _ _ Hx Hlive He). Qed.

Lemma ws_without_keeps x :
  indexed tm x -> x <> t ->
  exists l, ws_index_without t tm !! ws x = Some l /\ x ∈ l.
Proof.
  intros Hx Hne. pose proof Hx as (_ & _ & lx & Hlx & Hin).
  unfold ws_index_without. destruct Hlive as (_ & _ & l0 & Hl0 & Ht). rewrite Hl0.
  cbv zeta. destruct (decide (ws x = ws t)) as [He|Hn].
  - rewrite He in Hlx. assert (lx = l0) as -> by congruence.
    assert (Hk : x ∈ splice_out t l0)
      by (apply splice_out_keeps; [exact Hin | now apply other_object]).
    destruct (Nat.eqb_spec (length (splice_out t l0)) 0) as [Hz|Hnz].
    + apply nil_length_inv in Hz. rewrite Hz in Hk. now apply elem_of_nil in Hk.
    + rewrite He, lookup_insert_eq. eauto.
  - destruct (Nat.eqb_spec (length (splice_out t l0)) 0) as [Hz|Hnz].
    + rewrite lookup_delete_ne by congruence. eauto.
    + rewrite lookup_insert_ne by congruence. eauto.
Qed.

Lemma indexed_closed_inv x : indexed tm' x -> indexed tm x /\ x <> t.
Proof.
  intros (H1 & H2 & l & H3 & H4).
  rewrite Hsub in H1. rewrite Hid in H2. rewrite Hws in H3.
  apply lookup_delete_Some in H1 as [Hn1 H1].
  apply lookup_delete_Some in H2 as [Hn2 H2].
  apply ws_without_lookup in H3 as (l0 & Hl0 & ->).
  split; [|congruence].
  repeat split; auto. exists l0. split; [exact Hl0|].
  destruct (decide (ws x = ws t)); [now apply splice_out_subset in H4 | exact H4].
Qed.

Lemma indexed_closed_old x : indexed tm x -> x <> t -> indexed tm' x.
Proof.
  intros Hx Hne. pose proof Hx as (H1 & H2 & _).
  destruct Hlive as (Ht1 & Ht2 & _).
  unfold indexed. rewrite Hsub, Hid, Hws.
  rewrite lookup_delete_ne by (intros He; rewrite He in Ht1; congruence).
  rewrite lookup_delete_ne by (intros He; rewrite He in Ht2; congruence).
  repeat split; auto. now apply ws_without_keeps.
Qed.

Lemma closed_not_live : ~ live tm' t.
Proof.
  destruct Hlive as (Ht1 & Ht2 & l0 & Hl0 & Ht).
  intros [[k Hk]|[[k Hk]|(w & l & Hw & Hin)]].
  - rewrite Hsub in Hk. apply lookup_delete_Some in Hk as [Hn Hk].
    apply (inv_sub _ Hinv) in Hk as [-> _]. contradiction.
  - rewrite Hid in Hk. apply lookup_delete_Some in Hk as [Hn Hk].
    apply (inv_id _ Hinv) in Hk as [-> _]. contradiction.
  - rewrite Hws in Hw. apply ws_without_lookup in Hw as (l1 & Hl1 & ->).
    destruct (decide (w = ws t)) as [->|Hn].
    + assert (l1 = l0) as -> by congruence.
      revert Hin. apply splice_out_removes.
      * exact (inv_nodup _ Hinv _ _ Hl0).
      * intros x Hx He. destruct (inv_ws _ Hinv _ _ _ Hl0 Hx) as [_ Hi].
        exact (inv_obj _ Hinv _ _ Hi Hlive He).
    + destruct (inv_ws _ Hinv _ _ _ Hl1 Hin) as [-> _]. contradiction.
Qed.

Lemma Inv_closed : Inv tm'.
Proof.
  constructor.
  - intros k x Hk. rewrite Hsub in Hk.
    apply lookup_delete_Some in Hk as [Hn Hk].
    apply (inv_sub _ Hinv) in Hk as [-> Hx].
    split; [reflexivity|]. apply indexed_closed_old; [exact Hx | congruence].
  - intros k x Hk. rewrite Hid in Hk.
    apply lookup_delete_Some in Hk as [Hn Hk].
    apply (inv_id _ Hinv) in Hk as [-> Hx].
    split; [reflexivity|]. apply indexed_closed_old; [exact Hx | congruence].
  - intros w l x Hw Hx.
    assert (Hl : live tm' x) by (right; right; eauto).
    rewrite Hws in Hw. apply ws_without_lookup in Hw as (l0 & Hl0 & ->).
    assert (Hx0 : x ∈ l0)
      by (destruct (decide (w = ws t)); [now apply splice_out_subset in Hx | exact Hx]).
    destruct (inv_ws _ Hinv _ _ _ Hl0 Hx0) as [-> Hi].
    split; [reflexivity|]. apply indexed_closed_old; [exact Hi|].
    intros ->. now apply closed_not_live.
  - intros w l Hw. rewrite Hws in Hw.
    apply ws_without_lookup in Hw as (l0 & Hl0 & ->).
    pose proof (inv_nodup _ Hinv _ _ Hl0).
    destruct (decide (w = ws t)); [now apply splice_out_NoDup | assumption].
  - intros t1 t2 [H1 _]%indexed_closed_inv [H2 _]%indexed_closed_inv.
    exact (inv_obj _ Hinv _ _ H1 H2).
  - intros x [Hx _]%indexed_closed_inv. rewrite Hnext.
    exact (inv_next _ Hinv _ Hx).
Qed.

End Closed.

Lemma Inv_closeTunnel tunnelId reason tm :
  Inv tm -> Inv (closeTunnel tunnelId reason tm).
Proof.
  intros Hinv. destruct (tunnelsById tm !! tunnelId) as [t|] eqn:Ht.
  - destruct (closeTunnel_found _ reason _ _ Ht) as (Hsub & Hid & Hws & Hnext & _).
    destruct (inv_id _ Hinv _ _ Ht) as [-> Hi].
    exact (Inv_closed tm _ t Hinv Hi Hsub Hid Hws Hnext).
  - now rewrite closeTunnel_absent.
Qed.

Lemma Inv_fold_close {A} (f : A -> string) (reason : option string) (l : list A) tm :
  Inv tm ->
  Inv (fold_left (fun tm a => closeTunnel (f a) reason tm) l tm).
Proof.
  revert tm. induction l as [|a l IH]; intros tm Hinv; simpl; [exact Hinv|].
  apply IH. now apply Inv_closeTunnel.
Qed.

Lemma Inv_step op tm tm' :
  Inv tm -> fresh_draw op tm -> step op tm = Some tm' -> Inv tm'.
Proof.
  intros Hinv Hfresh Hstep. destruct op as [options d|tunnelId reason|w reason|];
    simpl in Hstep.
  - destruct (registerTunnel options d tm) as [[result tm'']|] eqn:Hreg;
      [|discriminate].
    injection Hstep as <-. exact (Inv_registerTunnel _ _ _ _ _ Hinv Hfresh Hreg).
  - injection Hstep as <-. now apply Inv_closeTunnel.
  - injection Hstep as <-. unfold closeTunnelsForWs.
    exact (Inv_fold_close tunnelId _ _ _ Hinv).
  - injection Hstep as <-. unfold closeAll.
    exact (Inv_fold_close (fun k => k) _ _ _ Hinv).
Qed.

Lemma reachable_Inv tm : reachable tm -> Inv tm.
Proof.
  induction 1 as [|op tm tm' Hr IH Hf Hs]; [exact Inv_new|].
  exact (Inv_step _ _ _ IH Hf Hs).
Qed.

Lemma live_indexed tm t : Inv tm -> live tm t -> indexed tm t.
Proof.
  intros Hinv [[k Hk]|[[k Hk]|(w & l & Hw & Hin)]].
  - exact (proj2 (inv_sub _ Hinv _ _ Hk)).
  - exact (proj2 (inv_id _ Hinv _ _ Hk)).
  - exact (proj2 (inv_ws _ Hinv _ _ _ Hw Hin)).
Qed.

Lemma fresh_drawb_spec op tm : fresh_drawb op tm = true -> fresh_draw op tm.
Proof.
  destruct op as [options d| | |]; simpl; auto.
  intros Hf. apply negb_true_iff in Hf. now apply has_false.
Qed.

Lemma run_reachable ops tm tm' :
  reachable tm -> run ops tm = Some tm' -> reachable tm'.
Proof.
  revert tm. induction ops as [|op ops IH]; intros tm Hr; simpl.
  - now intros [= <-].
  - destruct (fresh_drawb op tm) eqn:Hf; [|discriminate].
    destruct (step op tm) as [tm1|] eqn:Hs; [|discriminate].
    apply IH. eapply reachable_step; eauto using fresh_drawb_spec.
Qed.



(* ===================================================================== *)
(** * Closing a tunnel *)
(* ===================================================================== *)

Lemma Inv_with_tunnel t f tm : Inv tm -> Inv (with_tunnel t f tm).
Proof. intros [H1 H2 H3 H4 H5 H6]. constructor; assumption. Qed.

Lemma Inv_settle e tm : Inv tm -> Inv (settle e tm).
Proof. intros [H1 H2 H3 H4 H5 H6]. constructor; assumption. Qed.

Lemma closeTunnel_twice tunnelId reason reason' tm :
  closeTunnel tunnelId reason' (closeTunnel tunnelId reason tm)
  = closeTunnel tunnelId reason tm.
Proof.
  apply closeTunnel_absent.
  destruct (tunnelsById tm !! tunnelId) as [t|] eqn:Ht.
  - destruct (closeTunnel_found _ reason _ _ Ht) as (_ & -> & _).
    apply lookup_delete_eq.
  - now rewrite closeTunnel_absent.
Qed.

(** C6.  [closeTunnel] is idempotent: a second call with the same tunnel id
    returns the registry of the first, with nothing emitted.  When the id
    names a live tunnel, the tunnel is afterwards in none of the three
    indices, its pending table is empty, and the registry has, in order,
    rejected every pending request of the tunnel with the error
    [Tunnel closed] and emitted [tunnel:closed] with the tunnel and the
    reason. *)
Theorem closeTunnel_spec (tm : TunnelManager) (tunnelId : string)
    (reason : option string) :
  Inv tm ->
  (forall reason' : option string,
      closeTunnel tunnelId reason' (closeTunnel tunnelId reason tm)
      = closeTunnel tunnelId reason tm) /\
  (forall t : Tunnel,
      tunnelsById tm !! tunnelId = Some t ->
      ~ live (closeTunnel tunnelId reason tm) t /\
      tunnelsBySubdomain (closeTunnel tunnelId reason tm) !! subdomain t = None /\
      tunnelsById (closeTunnel tunnelId reason tm) !! tunnelId = None /\
      (forall w l, tunnelsByWs (closeTunnel tunnelId reason tm) !! w = Some l -> t ∉ l) /\
      pending_of (closeTunnel tunnelId reason tm) t = [] /\
      trace (closeTunnel tunnelId reason tm)
      = trace tm
        ++ map (fun entry => Reject (deferred (snd entry)) "Tunnel closed" None)
               (pending_of tm t)
        ++ [Emit_tunnel_closed t (default "Tunnel closed" reason)]).
Proof.
  intros Hinv. split; [intros reason'; apply closeTunnel_twice|].
  intros t Ht.
  destruct (closeTunnel_found _ reason _ _ Ht) as (Hsub & Hid & Hws & Hnext & Hp & Htr).
  destruct (inv_id _ Hinv _ _ Ht) as [Hk Hi].
  assert (Hnl : ~ live (closeTunnel tunnelId reason tm) t).
  { apply (closed_not_live tm _ t Hinv Hi Hsub); [|exact Hws]. now rewrite <- Hk. }
  split; [exact Hnl|].
  split; [rewrite Hsub; apply lookup_delete_eq|].
  split; [rewrite Hid; apply lookup_delete_eq|].
  split; [|split; assumption].
  intros w l Hw Hin. apply Hnl. right. right. eauto.
Qed.

Lemma closeTunnel_spec_witness :
  pending_of (closeTunnel "Ab3dEf6hIj9k" (Some "Client requested close")
                Sample.two_pending) Sample.demo1 = [] /\
  trace (closeTunnel "Ab3dEf6hIj9k" (Some "Client requested close") Sample.two_pending)
  = [ Emit_tunnel_created Sample.demo1;
      Reject 11 "Tunnel closed" None;
      Reject 12 "Tunnel closed" None;
      Emit_tunnel_closed Sample.demo1 "Client requested close" ].
Proof.
  assert (Hinv : Inv Sample.two_pending).
  { do 2 apply Inv_with_tunnel. apply reachable_Inv.
    apply (reachable_step
             (OpRegister (Sample.request 1 "demo1") (Sample.draws "Ab3dEf6hIj9k"))
             TunnelManager_new); [apply reachable_new | reflexivity | reflexivity]. }
  destruct (proj2 (closeTunnel_spec Sample.two_pending "Ab3dEf6hIj9k"
                     (Some "Client requested close") Hinv)
              Sample.demo1 eq_refl) as (_ & _ & _ & _ & Hp & Htr).
  split; [exact Hp|]. rewrite Htr. reflexivity.
Defined.

(* ===================================================================== *)
(** * Curl synthesis *)
(* ===================================================================== *)

Lemma fold_headers (hs : Headers) (acc : list string) :
  fold_left
    (fun parts kv =>
       if negb (Js.includes ["host"; "content-length"] (Js.toLowerCase (fst kv)))
       then parts ++ ["-H '" +:+ fst kv +:+ ": " +:+ snd kv +:+ "'"]
       else parts)
    hs acc
  = acc ++ flat_map curl_header hs.
Proof.
  revert acc. induction hs as [|kv hs IH]; intros acc; cbn [fold_left flat_map].
  - now rewrite app_nil_r.
  - rewrite IH. unfold curl_header at 2.
    destruct (Js.includes _ _); cbn [negb]; [reflexivity|].
    now rewrite <- app_assoc.
Qed.

Lemma toCurl_parts_spec (t : InspectedTraffic) :
  toCurl_parts t
  = ["curl"] ++ curl_method (it_request t)
    ++ flat_map curl_header (i_headers (it_request t))
    ++ curl_body (it_request t)
    ++ ["'" +:+ curl_url "example.com" (it_request t) +:+ "'"].
Proof.
  unfold toCurl_parts, curl_method, curl_body, curl_url. cbv zeta.
  rewrite fold_headers.
  destruct (String.eqb (i_method (it_request t)) "GET"); cbn [negb];
    destruct (i_body (it_request t)) as [body|]; try destruct (Js.truthy body);
    rewrite <- ?app_assoc; reflexivity.
Qed.

(** C7, on the code.  For every captured exchange the command is [curl],
    then [-X METHOD] exactly when the method is not [GET], then one [-H] per
    header other than [host] and [content-length] (compared in lower case),
    then [-d] with every single quote of the body replaced by [quote,
    backslash, quote, quote] exactly when the body is present, then the
    quoted URL; the parts are joined by [curl_separator].  The URL is built
    on the literal domain [example.com]: [toCurl] reads no configuration.
    With the default configuration, whose public domain is [localhost], the
    registration handshake announces [http://demo1.localhost:3000], the URL
    of the specification is [https://demo1.localhost/x], and the command
    targets [https://demo1.example.com/x]. *)
Theorem toCurl_targets_example_com :
  (forall t : InspectedTraffic,
      toCurl t
      = Js.join curl_separator
          (["curl"] ++ curl_method (it_request t)
           ++ flat_map curl_header (i_headers (it_request t))
           ++ curl_body (it_request t)
           ++ ["'" +:+ curl_url "example.com" (it_request t) +:+ "'"])) /\
  publicDomain Sample.config = "localhost" /\
  buildPublicUrl Sample.config "demo1" = "http://demo1.localhost:3000" /\
  curl_url (publicDomain Sample.config) (it_request Sample.posted)
  = "https://demo1.localhost/x" /\
  toCurl Sample.posted
  = Js.join curl_separator
      [ "curl"; "-X POST"; "-H 'content-type: text/plain'";
        "-d 'it'" +:+ backslash +:+ "''s'";
        "'https://demo1.example.com/x'" ].
Proof.
  split; [intros t; unfold toCurl; now rewrite toCurl_parts_spec|].
  repeat split; reflexivity.
Qed.

(* ===================================================================== *)
(** * The three ends of a forwarded request *)
(* ===================================================================== *)

Lemma get_delete {V} (k : string) (m : list (string * V)) :
  OrderedMap.get k (OrderedMap.delete k m) = None.
Proof.
  induction m as [|[k' v] m IH]; simpl; [reflexivity|].
  destruct (String.eqb k' k) eqn:He; [exact IH|].
  simpl. now rewrite He.
Qed.

Lemma heap_with_tunnel t f tm :
  heap (with_tunnel t f tm) !!! obj t = f (heap tm !!! obj t).
Proof. unfold with_tunnel. simpl. apply lookup_total_insert_eq. Qed.

Lemma recordResponse_stored resp s traffic :
  trafficByRequestId s !! r_requestId resp = Some traffic ->
  responses (recordResponse resp s) !! it_obj traffic
  = Some {| response := resp; responseTime := r_responseTime resp |}.
Proof.
  intros Hl. unfold recordResponse. rewrite Hl. simpl. apply lookup_insert_eq.
Qed.

Section Outcomes.
Context `{Buffer}.



Lemma complete_inspector x o c g :
  inspectorService (complete x o c g)
  = recordResponse (response_record x (settlement_of o) c) (inspectorService g).
Proof. unfold complete, forward_finish. now destruct o. Qed.

Lemma heap_settle e tm : heap (settle e tm) = heap tm.
Proof. reflexivity. Qed.

Lemma removed_not_pending requestId data :
  Tunnel_getPendingRequest requestId (Tunnel_removePendingRequest requestId data) = None.
Proof. apply get_delete. Qed.

(** After the settling event the pending entry is gone in every case. *)
Lemma settled_not_pending x o tm :
  Tunnel_getPendingRequest (x_requestId x)
    (heap (settle_exchange x o tm) !!! obj (x_tunnel x)) = None.
Proof.
  destruct o as [payload|error code|]; cbn [settle_exchange].
  - unfold handleResponse.
    destruct (Tunnel_getPendingRequest (x_requestId x) (heap tm !!! obj (x_tunnel x)))
      as [p|] eqn:Hp; [|exact Hp].
    rewrite heap_settle, heap_with_tunnel. apply removed_not_pending.
  - unfold handleError.
    destruct (Tunnel_getPendingRequest (x_requestId x) (heap tm !!! obj (x_tunnel x)))
      as [p|] eqn:Hp; [|exact Hp].
    rewrite heap_settle, heap_with_tunnel. apply removed_not_pending.
  - unfold timeout_fires. rewrite heap_settle, heap_with_tunnel.
    apply removed_not_pending.
Qed.



End Outcomes.



(* ===================================================================== *)
(** * Header sanitizing and truncation *)
(* ===================================================================== *)

Lemma sanitizeHeaders_lookup (headers : Headers) (i : nat) (k v : string) :
  headers !! i = Some (k, v) ->
  sanitizeHeaders headers !! i
  = Some (k, if Js.includes sensitiveKeys (Js.toLowerCase k) then "[REDACTED]" else v).
Proof.
  revert i. induction headers as [|[k' v'] hs IH]; intros i Hi; [discriminate|].
  destruct i as [|i]; simpl in Hi.
  - injection Hi as -> ->. unfold sanitizeHeaders. cbn [map fst].
    now destruct (Js.includes sensitiveKeys (Js.toLowerCase k)).
  - apply IH in Hi. exact Hi.
Qed.

Lemma sanitizeHeaders_member (headers : Headers) (k v : string) :
  (k, v) ∈ sanitizeHeaders headers ->
  exists v0, (k, v0) ∈ headers /\
             v = if Js.includes sensitiveKeys (Js.toLowerCase k) then "[REDACTED]" else v0.
Proof.
  induction headers as [|[k' v'] hs IH]; unfold sanitizeHeaders; cbn [map fst].
  - intros Hin. now apply elem_of_nil in Hin.
  - intros [Heq|Hin]%elem_of_cons.
    + destruct (Js.includes sensitiveKeys (Js.toLowerCase k')) eqn:Hs;
        injection Heq as -> ->; exists v'; rewrite Hs; split; auto; now left.
    + destruct (IH Hin) as (v0 & Hv0 & Hv). exists v0. split; [now right | exact Hv].
Qed.

(** After [sanitizeHeaders] the header names are what they were, in the same
    order; the value at each position is [[REDACTED]] when the lower-case
    form of the name is one of [authorization], [cookie], [set-cookie],
    [x-api-key], and the original value otherwise; so no value of a
    sensitive name survives, whatever the case of the name; and sanitizing
    again changes nothing. *)
Theorem sanitizeHeaders_redacts (headers : Headers) :
  map fst (sanitizeHeaders headers) = map fst headers /\
  (forall i k v,
      headers !! i = Some (k, v) ->
      sanitizeHeaders headers !! i
      = Some (k, if Js.includes sensitiveKeys (Js.toLowerCase k)
                 then "[REDACTED]" else v)) /\
  (forall k v,
      (k, v) ∈ sanitizeHeaders headers ->
      Js.includes sensitiveKeys (Js.toLowerCase k) = true -> v = "[REDACTED]") /\
  sanitizeHeaders (sanitizeHeaders headers) = sanitizeHeaders headers.
Proof.
  split; [|split; [|split]].
  - induction headers as [|[k v] hs IH]; [reflexivity|].
    unfold sanitizeHeaders in *. cbn [map fst]. rewrite IH.
    now destruct (Js.includes sensitiveKeys (Js.toLowerCase k)).
  - intros i k v. apply sanitizeHeaders_lookup.
  - intros k v Hin Hs. apply sanitizeHeaders_member in Hin as (v0 & _ & ->).
    now rewrite Hs.
  - induction headers as [|[k v] hs IH]; [reflexivity|].
    unfold sanitizeHeaders in *. cbn [map fst]. rewrite IH. f_equal.
    destruct (Js.includes sensitiveKeys (Js.toLowerCase k)) eqn:Hs; cbn [fst];
      now rewrite Hs.
Qed.

Lemma sanitizeHeaders_redacts_witness :
  sanitizeHeaders Fixture.request_headers
  = [ ("Host", "demo1.localhost:3000"); ("Authorization", "[REDACTED]");
      ("content-type", "application/json"); ("X-API-Key", "[REDACTED]") ] /\
  sanitizeHeaders Fixture.request_headers !! 1 = Some ("Authorization", "[REDACTED]").
Proof.
  split; [reflexivity|].
  apply (proj1 (proj2 (sanitizeHeaders_redacts Fixture.request_headers))
           1 "Authorization" "Bearer s3cret").
  reflexivity.
Defined.

Lemma length_append (s1 s2 : string) :
  String.length (s1 +:+ s2) = String.length s1 + String.length s2.
Proof. induction s1 as [|c s1 IH]; simpl; [reflexivity | now rewrite IH]. Qed.

Lemma length_substring0 (n : nat) (s : string) :
  n <= String.length s -> String.length (String.substring 0 n s) = n.
Proof.
  revert n. induction s as [|c s IH]; intros n Hn; simpl in *.
  - destruct n; [reflexivity | lia].
  - destruct n as [|n]; [reflexivity|]. simpl. rewrite IH; [reflexivity | lia].
Qed.

Lemma substring0_prefix (n : nat) (s : string) :
  exists rest, s = String.substring 0 n s +:+ rest.
Proof.
  revert n. induction s as [|c s IH]; intros n; simpl.
  - exists "". now destruct n.
  - destruct n as [|n]; [now exists (String c s)|].
    destruct (IH n) as (rest & Hr). exists rest.
    change (String c s = String c (String.substring 0 n s +:+ rest)).
    f_equal. exact Hr.
Qed.

(** [truncate]: a string no longer than [maxLength] comes back as it is, and
    so does the empty string whatever the bound.  A longer string is cut to
    a prefix of itself followed by three dots; the result has length exactly
    [maxLength] when [maxLength] is at least 3, and is the three dots alone,
    longer than the bound, when [maxLength] is below 3. *)
Theorem truncate_spec (str : string) (maxLength : Z) :
  truncate "" maxLength = "" /\
  ((Z.of_nat (String.length str) <= maxLength)%Z -> truncate str maxLength = str) /\
  ((maxLength < Z.of_nat (String.length str))%Z -> str <> "" ->
   (exists prefix rest,
       str = prefix +:+ rest /\ truncate str maxLength = prefix +:+ "...") /\
   ((3 <= maxLength)%Z ->
    Z.of_nat (String.length (truncate str maxLength)) = maxLength) /\
   ((maxLength < 3)%Z -> truncate str maxLength = "...")).
Proof.
  split; [reflexivity|]. split.
  - intros Hle. unfold truncate.
    destruct (Z.leb_spec (Z.of_nat (String.length str)) maxLength); [|lia].
    now rewrite orb_true_r.
  - intros Hlt Hne. unfold truncate.
    destruct str as [|c str]; [contradiction|]. cbn [Js.truthy negb orb].
    destruct (Z.leb_spec (Z.of_nat (String.length (String c str))) maxLength); [lia|].
    split; [|split].
    + destruct (substring0_prefix (Z.to_nat (maxLength - 3)) (String c str))
        as (rest & Hr).
      exists (substring_to (maxLength - 3) (String c str)), rest. split; [exact Hr|].
      reflexivity.
    + intros H3. unfold substring_to. rewrite length_append, length_substring0 by lia.
      simpl. lia.
    + intros H3. unfold substring_to.
      replace (Z.to_nat (maxLength - 3)) with 0 by lia. reflexivity.
Qed.

Lemma truncate_spec_witness :
  Z.of_nat (String.length (truncate Fixture.long_text 100)) = 100%Z /\
  truncate "tunnel" 2 = "...".
Proof.
  split.
  - apply (proj1 (proj2 (proj2 (proj2 (truncate_spec Fixture.long_text 100))
                           ltac:(vm_compute; reflexivity) ltac:(discriminate)))).
    lia.
  - apply (proj2 (proj2 (proj2 (proj2 (truncate_spec "tunnel" 2))
                           ltac:(vm_compute; reflexivity) ltac:(discriminate)))).
    lia.
Defined.

(* ===================================================================== *)
(** * Every constructed frame decodes *)
(* ===================================================================== *)

Lemma frame_decodes (type : string) (payload : list (string * jsval)) :
  In type (map snd MessageType) ->
  parseMessage (Parsed (frame type payload)) = Some (frame type payload).
Proof.
  intros Hin. unfold frame.
  rewrite (parseMessage_object_string _ type).
  - apply includes_In in Hin. now rewrite Hin.
  - reflexivity.
Qed.

Lemma frame_type (type : string) (payload : list (string * jsval)) :
  type_of (Parsed (frame type payload)) = Some type.
Proof. reflexivity. Qed.

Lemma frame_payload (type : string) (payload : list (string * jsval)) :
  payload_of (frame type payload) = Some (JObj (defined_members payload)).
Proof. reflexivity. Qed.

Lemma frame_dispatch (type : string) (payload : list (string * jsval)) :
  In type (map snd MessageType) ->
  handleMessage (Parsed (frame type payload)) =
  if String.eqb type "tunnel:register"
  then HandleTunnelRegister (Some (JObj (defined_members payload)))
  else if String.eqb type "tunnel:close"
  then HandleTunnelClose (Some (JObj (defined_members payload)))
  else if String.eqb type "http:response"
  then HandleHttpResponse (Some (JObj (defined_members payload)))
  else if String.eqb type "http:error"
  then HandleHttpError (Some (JObj (defined_members payload)))
  else if String.eqb type "ping" then ReplyPong
  else if String.eqb type "pong" then Ignore
  else ReplyError "UNKNOWN_MESSAGE".
Proof.
  intros Hin. unfold handleMessage. rewrite (frame_decodes _ _ Hin).
  rewrite frame_type, frame_payload. reflexivity.
Qed.

Section Decoding.
Context `{Buffer}.

(** Whatever its arguments, a frame built by one of the constructors of
    [protocol.js] is accepted by [parseMessage] as it is.  On the gateway the
    frames of a client are dispatched to the handler of their kind with their
    payload, a ping is answered with a pong and a pong is ignored; a frame of
    a kind that only the gateway sends ([tunnel:registered], [http:request],
    [error]) is answered with [UNKNOWN_MESSAGE]. *)
Theorem constructed_frames_decode (m : json) :
  constructed m ->
  parseMessage (Parsed m) = Some m /\
  handleMessage (Parsed m) <> ReplyError "INVALID_MESSAGE" /\
  (forall type, type_of (Parsed m) = Some type ->
     (type = "tunnel:register" -> handleMessage (Parsed m) = HandleTunnelRegister (payload_of m)) /\
     (type = "tunnel:close" -> handleMessage (Parsed m) = HandleTunnelClose (payload_of m)) /\
     (type = "http:response" -> handleMessage (Parsed m) = HandleHttpResponse (payload_of m)) /\
     (type = "http:error" -> handleMessage (Parsed m) = HandleHttpError (payload_of m)) /\
     (type = "ping" -> handleMessage (Parsed m) = ReplyPong) /\
     (type = "pong" -> handleMessage (Parsed m) = Ignore) /\
     (type = "tunnel:registered" \/ type = "http:request" \/ type = "error" ->
      handleMessage (Parsed m) = ReplyError "UNKNOWN_MESSAGE")).
Proof.
  intros Hc.
  assert (Hf : exists type payload,
             m = frame type payload /\ In type (map snd MessageType) /\
             type <> "tunnel:closed").
  { destruct Hc; eexists _, _; (split; [reflexivity|]); split;
      try discriminate; simpl; tauto. }
  destruct Hf as (type & payload & -> & Hin & Hnc).
  split; [now apply frame_decodes|].
  rewrite (frame_dispatch _ _ Hin), frame_type, frame_payload.
  split.
  - repeat match goal with
           | |- context [String.eqb ?a ?b] => destruct (String.eqb a b)
           end; discriminate.
  - intros type' [= <-].
    repeat split; intros Ht; try (subst type; reflexivity).
    destruct Ht as [->|[->| ->]]; reflexivity.
Qed.

End Decoding.

Lemma constructed_frames_decode_witness :
  parseMessage
    (Parsed (@createHttpResponseMessage Sample.buffer "00000000000000c1" 200
               [("content-type", "text/plain")] (BodyBuffer "pong") 5030))
  = Some (frame "http:response"
            [ ("requestId", Some (JStr "00000000000000c1"));
              ("statusCode", Some (JNum 200));
              ("headers", Some (JObj [("content-type", JStr "text/plain")]));
              ("body", Some (JStr "cG9uZw==")); ("timestamp", Some (JNum 5030)) ]).
Proof.
  apply (proj1 (@constructed_frames_decode Sample.buffer _
                  (@built_response Sample.buffer "00000000000000c1" 200
                     [("content-type", "text/plain")] (BodyBuffer "pong") 5030))).
Defined.

(* ===================================================================== *)
(** * Routing by host *)
(* ===================================================================== *)

Lemma split_on_label (label rest : string) :
  no_dot label ->
  split_on "."%char (label +:+ "." +:+ rest)
  = (label, fst (split_on "."%char rest) :: snd (split_on "."%char rest)).
Proof.
  unfold no_dot. induction label as [|c label IH]; intros Hn.
  - change ("" +:+ "." +:+ rest) with (String "."%char rest).
    cbn [split_on]. destruct (split_on "."%char rest) as [first others].
    reflexivity.
  - change (String c label +:+ "." +:+ rest)
      with (String c (label +:+ "." +:+ rest)).
    cbn [split_on]. rewrite IH.
    + destruct (Ascii.eqb_spec c "."%char) as [->|Hne]; [|reflexivity].
      exfalso. apply Hn. now left.
    + intros Hin. apply Hn. now right.
Qed.

Lemma split_on_no_dot (host : string) :
  no_dot host -> split_on "."%char host = (host, []).
Proof.
  unfold no_dot. induction host as [|c host IH]; intros Hn; [reflexivity|].
  cbn [split_on]. rewrite IH by (intros Hin; apply Hn; now right).
  destruct (Ascii.eqb_spec c "."%char) as [->|Hne]; [|reflexivity].
  exfalso. apply Hn. now left.
Qed.

Lemma valid_no_dot (s : string) : isValidSubdomain s = true -> no_dot s.
Proof.
  intros Hv Hin.
  apply isValidSubdomain_spec in Hv as [_ (c1 & c2 & mid & Hs & H1 & Hm & H2)].
  rewrite Hs in Hin.
  assert (Hall : Forall (fun c => TUNNEL_CONFIG.alnum_dash c = true) (c1 :: mid ++ [c2])).
  { constructor; [now apply alnum_alnum_dash|]. apply Forall_app. split; [exact Hm|].
    repeat constructor. now apply alnum_alnum_dash. }
  rewrite Forall_forall in Hall. apply list_elem_of_In in Hin.
  apply Hall in Hin. discriminate Hin.
Qed.

Lemma publicRoute_label (label rest : string) :
  no_dot label ->
  publicRoute (Some (label +:+ "." +:+ rest)) =
  if String.eqb label "" || String.eqb label "www" || String.eqb label "api"
  then Banner else ForwardTo label.
Proof.
  intros Hn. unfold publicRoute, extractSubdomain, split.
  assert (Ht : Js.truthy (label +:+ "." +:+ rest) = true) by now destruct label.
  rewrite Ht, (split_on_label _ _ Hn). cbn [hd length Nat.leb andb].
  destruct (String.eqb_spec label "www") as [->|Hw]; [reflexivity|].
  destruct (String.eqb_spec label "api") as [->|Ha]; [reflexivity|].
  cbn [negb andb routed_subdomain isTunnelRequest orb].
  destruct label; reflexivity.
Qed.

(** The catch-all public route serves the banner when there is no [Host]
    header or when the host has no dot.  A host with a dot is forwarded to
    the tunnel named by its first label, as written, unless that label is
    empty, [www] or [api]; the comparison is case-sensitive and the rest of
    the host is not looked at, so [WWW.example.com] is forwarded to [WWW] and
    the bare domain [example.com] to [example]. *)
Theorem publicRoute_by_first_label :
  publicRoute None = Banner /\
  (forall host, no_dot host -> publicRoute (Some host) = Banner) /\
  (forall label rest,
      no_dot label ->
      publicRoute (Some (label +:+ "." +:+ rest)) =
      if String.eqb label "" || String.eqb label "www" || String.eqb label "api"
      then Banner else ForwardTo label) /\
  publicRoute (Some "WWW.example.com") = ForwardTo "WWW" /\
  publicRoute (Some "example.com") = ForwardTo "example".
Proof.
  split; [reflexivity|]. split; [|split; [|split; reflexivity]].
  - intros host Hn. unfold publicRoute, extractSubdomain, split.
    destruct host as [|c host]; [reflexivity|]. cbn [Js.truthy].
    rewrite (split_on_no_dot _ Hn). reflexivity.
  - exact publicRoute_label.
Qed.

(** The URL announced for a valid subdomain leads back to it: the host of
    [buildPublicUrl] is routed to the tunnel of that subdomain, whatever the
    configured domain and port. *)
Theorem announced_url_routes_back (config : Config) (s : string) :
  isValidSubdomain s = true ->
  buildPublicUrl config s = "http://" +:+ public_host config s /\
  publicRoute (Some (public_host config s)) = ForwardTo s.
Proof.
  intros Hv. split; [reflexivity|].
  unfold public_host.
  rewrite (publicRoute_label s _ (valid_no_dot _ Hv)).
  apply isValidSubdomain_spec in Hv as [[Hlen _] _].
  destruct (String.eqb_spec s "") as [->|_]; [simpl in Hlen; lia|].
  destruct (String.eqb_spec s "www") as [->|_]; [simpl in Hlen; lia|].
  destruct (String.eqb_spec s "api") as [->|_]; [simpl in Hlen; lia|].
  reflexivity.
Qed.

Lemma announced_url_routes_back_witness :
  buildPublicUrl Sample.config "demo1" = "http://demo1.localhost:3000" /\
  publicRoute (Some "demo1.localhost:3000") = ForwardTo "demo1".
Proof.
  exact (announced_url_routes_back Sample.config "demo1" eq_refl).
Defined.

(* ===================================================================== *)
(** * The per-socket cap and the reserved names, as invariants *)
(* ===================================================================== *)

Lemma splice_out_length t l : length (splice_out t l) <= length l.
Proof.
  induction l as [|y l IH]; simpl; [lia|].
  destruct (same_object y t); simpl; lia.
Qed.

Lemma ws_index_without_length t tm w l :
  ws_index_without t tm !! w = Some l ->
  exists l0, tunnelsByWs tm !! w = Some l0 /\ length l <= length l0.
Proof.
  unfold ws_index_without.
  destruct (tunnelsByWs tm !! ws t) as [l0|] eqn:Hl0; [|eauto].
  cbv zeta. destruct (length (splice_out t l0) =? 0)%nat.
  - intros [_ Hw]%lookup_delete_Some. eauto.
  - intros [[<- <-]|[_ Hw]]%lookup_insert_Some; [|eauto].
    exists l0. split; [exact Hl0 | apply splice_out_length].
Qed.

Lemma closeTunnel_indices tunnelId reason tm :
  (forall w l, tunnelsByWs (closeTunnel tunnelId reason tm) !! w = Some l ->
               exists l0, tunnelsByWs tm !! w = Some l0 /\ length l <= length l0) /\
  (forall k, tunnelsBySubdomain tm !! k = None ->
             tunnelsBySubdomain (closeTunnel tunnelId reason tm) !! k = None).
Proof.
  destruct (tunnelsById tm !! tunnelId) as [t|] eqn:Ht.
  - destruct (closeTunnel_found _ reason _ _ Ht) as (-> & _ & -> & _). split.
    + intros w l. apply ws_index_without_length.
    + intros k Hk. destruct (decide (subdomain t = k)) as [->|Hne].
      * apply lookup_delete_eq.
      * now rewrite lookup_delete_ne.
  - rewrite closeTunnel_absent by exact Ht. split; eauto.
Qed.

Lemma within_cap_close tunnelId reason tm :
  within_cap tm -> within_cap (closeTunnel tunnelId reason tm).
Proof.
  intros Hc w l Hl.
  apply (proj1 (closeTunnel_indices tunnelId reason tm)) in Hl as (l0 & Hl0 & Hle).
  specialize (Hc _ _ Hl0). lia.
Qed.

Lemma unreserved_close tunnelId reason tm :
  unreserved tm -> unreserved (closeTunnel tunnelId reason tm).
Proof.
  intros Hu k Hk. apply (proj2 (closeTunnel_indices tunnelId reason tm)). auto.
Qed.

Lemma fold_close_preserves {A} (P : TunnelManager -> Prop) (f : A -> string)
    (reason : option string) (l : list A) tm :
  (forall k tm, P tm -> P (closeTunnel k reason tm)) ->
  P tm -> P (fold_left (fun tm a => closeTunnel (f a) reason tm) l tm).
Proof.
  intros Hstep. revert tm. induction l as [|a l IH]; intros tm Hp; simpl; auto.
Qed.

Lemma within_cap_register options d tm result tm' :
  within_cap tm -> registerTunnel options d tm = Some (result, tm') -> within_cap tm'.
Proof.
  intros Hc Hreg. destruct result as [t|error code].
  - apply registerTunnel_success_inv in Hreg
      as (s & _ & Hlt & Ht & _ & _ & Hws & _).
    intros w l. rewrite Hws.
    intros [[<- <-]|[_ Hl]]%lookup_insert_Some; [|eauto].
    rewrite length_app. simpl. subst t. simpl. 
    unfold TUNNEL_CONFIG.MAX_TUNNELS_PER_CLIENT in *. lia.
  - apply registerTunnel_failure_inv in Hreg. now subst.
Qed.

Lemma unreserved_register options d tm result tm' :
  unreserved tm -> registerTunnel options d tm = Some (result, tm') -> unreserved tm'.
Proof.
  intros Hu Hreg. destruct result as [t|error code].
  - apply registerTunnel_success_inv in Hreg
      as (s & Hc & _ & _ & Hsub & _).
    apply choose_passed in Hc as (Hres & _).
    intros k Hk. rewrite Hsub. rewrite lookup_insert_ne; [auto|].
    intros ->. contradiction.
  - apply registerTunnel_failure_inv in Hreg. now subst.
Qed.

Lemma step_preserves (P : TunnelManager -> Prop) op tm tm' :
  (forall options d tm result tm',
      P tm -> registerTunnel options d tm = Some (result, tm') -> P tm') ->
  (forall k reason tm, P tm -> P (closeTunnel k reason tm)) ->
  P tm -> step op tm = Some tm' -> P tm'.
Proof.
  intros Hreg Hclose Hp Hstep.
  destruct op as [options d|tunnelId reason|w reason|]; simpl in Hstep.
  - destruct (registerTunnel options d tm) as [[result tm'']|] eqn:Hr; [|discriminate].
    injection Hstep as <-. eauto.
  - injection Hstep as <-. auto.
  - injection Hstep as <-. unfold closeTunnelsForWs.
    apply (fold_close_preserves P tunnelId); auto.
  - injection Hstep as <-. unfold closeAll.
    apply (fold_close_preserves P (fun k => k)); auto.
Qed.

Lemma exec_preserves (P : TunnelManager -> Prop) ops tm tm' :
  (forall op tm tm', P tm -> step op tm = Some tm' -> P tm') ->
  P tm -> exec ops tm = Some tm' -> P tm'.
Proof.
  intros Hstep. revert tm. induction ops as [|op ops IH]; intros tm Hp; simpl.
  - now intros [= <-].
  - destruct (step op tm) as [tm1|] eqn:Hs; [|discriminate]. eauto.
Qed.

(** The cap as an invariant: after any sequence of the four operations run
    from the empty registry, whatever identifiers and subdomains the
    registrations draw, no socket owns more than ten tunnels. *)
Theorem channel_never_over_cap (ops : list Op) (tm : TunnelManager) :
  exec ops TunnelManager_new = Some tm ->
  forall w : WebSocket,
    length (getTunnelsByWs tm w) <= TUNNEL_CONFIG.MAX_TUNNELS_PER_CLIENT /\
    TUNNEL_CONFIG.MAX_TUNNELS_PER_CLIENT = 10.
Proof.
  intros Hexec w. split; [|reflexivity].
  assert (Hc : within_cap tm).
  { apply (exec_preserves within_cap ops TunnelManager_new); [| |exact Hexec].
    - intros op tm0 tm1. apply step_preserves.
      + exact within_cap_register.
      + intros k reason. apply within_cap_close.
    - intros w' l Hl. simpl in Hl. now rewrite lookup_empty in Hl. }
  unfold getTunnelsByWs. destruct (tunnelsByWs tm !! w) as [l|] eqn:Hl; simpl.
  - exact (Hc _ _ Hl).
  - unfold TUNNEL_CONFIG.MAX_TUNNELS_PER_CLIENT. lia.
Qed.

Lemma channel_never_over_cap_witness :
  exists tm,
    exec Fixture.twelve TunnelManager_new = Some tm /\
    length (getTunnelsByWs tm 7) <= 10 /\
    length (getTunnelsByWs tm 7) = 10.
Proof.
  destruct (exec Fixture.twelve TunnelManager_new) as [tm|] eqn:He;
    [|vm_compute in He; discriminate He].
  exists tm. split; [reflexivity|]. split.
  - exact (proj1 (channel_never_over_cap Fixture.twelve tm He 7)).
  - vm_compute in He. injection He as <-. reflexivity.
Defined.

(** The reserved names as an invariant: after any sequence of the four
    operations run from the empty registry, no reserved name is a key of the
    subdomain index, and a lookup of a reserved name in any spelling of its
    letters finds nothing. *)
Theorem reserved_never_registered (ops : list Op) (tm : TunnelManager) :
  exec ops TunnelManager_new = Some tm ->
  forall label : string,
    In (Js.toLowerCase label) reservedSubdomains ->
    tunnelsBySubdomain tm !! Js.toLowerCase label = None /\
    getTunnelBySubdomain tm (Some label) = None.
Proof.
  intros Hexec label Hin.
  assert (Hu : unreserved tm).
  { apply (exec_preserves unreserved ops TunnelManager_new); [| |exact Hexec].
    - intros op tm0 tm1. apply step_preserves.
      + exact unreserved_register.
      + intros k reason. apply unreserved_close.
    - intros k _. apply lookup_empty. }
  split; exact (Hu _ Hin).
Qed.

Lemma reserved_never_registered_witness :
  exists tm,
    exec Sample.history TunnelManager_new = Some tm /\
    getTunnelBySubdomain tm (Some "Admin") = None.
Proof.
  destruct (exec Sample.history TunnelManager_new) as [tm|] eqn:He;
    [|vm_compute in He; discriminate He].
  exists tm. split; [reflexivity|].
  apply (reserved_never_registered Sample.history tm He "Admin").
  simpl. tauto.
Defined.

(* ===================================================================== *)
(** * Registration: what a success leaves behind *)
(* ===================================================================== *)

Lemma generate_loop_In tm draws s : generate_loop tm draws = Some s -> In s draws.
Proof.
  induction draws as [|c rest IH]; cbn [generate_loop]; [discriminate|].
  destruct (has _ _ || Js.includes _ _).
  - intros Hg. right. auto.
  - intros [= <-]. now left.
Qed.

Lemma generated_is_valid (s : string) :
  generated_subdomain s -> isValidSubdomain s = true.
Proof.
  intros [Hlen Hall]. apply isValidSubdomain_spec. split; [lia|].
  rewrite <- length_list_ascii in Hlen.
  destruct (list_ascii_of_string s) as [|c1 [|c2 [|c3 [|c4 [|c5 [|c6 [|c7 [|c8 [|c9 l]]]]]]]]]
    eqn:Hs; try discriminate Hlen.
  exists c1, c8, [c2; c3; c4; c5; c6; c7]. split; [exact Hs|].
  repeat match goal with H : Forall _ (_ :: _) |- _ => inversion H; clear H; subst end.
  split; [assumption|]. split; [|assumption].
  repeat constructor; now apply alnum_alnum_dash.
Qed.

(** A generated subdomain that gets registered is one of the draws, passes
    the grammar of requested subdomains, is not reserved, was not live, and
    is found again by [getTunnelBySubdomain]; the draws are strings of eight
    lower-case letters and digits, as the generator's alphabet and size
    make them. *)
Theorem generated_subdomain_registered (options : RegisterOptions) (d : Draws)
    (tm tm' : TunnelManager) (t : Tunnel) :
  JsVal.truthy (requestedSubdomain options) = false ->
  Forall generated_subdomain (drawn_subdomains d) ->
  registerTunnel options d tm = Some (Success t, tm') ->
  In (subdomain t) (drawn_subdomains d) /\
  isValidSubdomain (subdomain t) = true /\
  ~ In (subdomain t) reservedSubdomains /\
  tunnelsBySubdomain tm !! subdomain t = None /\
  getTunnelBySubdomain tm' (Some (subdomain t)) = Some t.
Proof.
  intros Ht Hgen Hreg.
  apply registerTunnel_success_inv in Hreg as (s & Hc & _ & Hrec & Hsub & _).
  assert (Hs : subdomain t = s) by now rewrite Hrec.
  rewrite Hs. pose proof Hc as Hc'. apply choose_passed in Hc' as (Hres & Hfree & _).
  unfold choose_subdomain in Hc. rewrite Ht in Hc.
  destruct (generate_loop tm (drawn_subdomains d)) as [g|] eqn:Hg; [|discriminate].
  injection Hc as <-. apply generate_loop_In in Hg.
  assert (Hv : isValidSubdomain g = true).
  { apply generated_is_valid. rewrite Forall_forall in Hgen. apply Hgen.
    now apply list_elem_of_In. }
  repeat split; auto.
  unfold getTunnelBySubdomain. rewrite (valid_is_lowercase _ Hv), Hsub.
  apply lookup_insert_eq.
Qed.

Lemma generated_subdomain_registered_witness :
  exists t tm',
    registerTunnel Fixture.generated_request Fixture.generated_draws
      Fixture.with_generated = Some (Success t, tm') /\
    subdomain t = "p0o9i8u7" /\
    isValidSubdomain (subdomain t) = true /\
    getTunnelBySubdomain tm' (Some (subdomain t)) = Some t.
Proof.
  destruct (registerTunnel Fixture.generated_request Fixture.generated_draws
              Fixture.with_generated) as [[[t|e c] tm']|] eqn:Hreg;
    try (vm_compute in Hreg; discriminate Hreg).
  exists t, tm'. split; [reflexivity|].
  assert (Hgen : Forall generated_subdomain (drawn_subdomains Fixture.generated_draws)).
  { repeat constructor. }
  destruct (generated_subdomain_registered Fixture.generated_request
              Fixture.generated_draws Fixture.with_generated tm' t eq_refl Hgen Hreg)
    as (_ & Hv & _ & _ & Hget).
  split; [|split; assumption].
  vm_compute in Hreg. injection Hreg as <- _. reflexivity.
Defined.

(** Below the cap, the registration of a requested subdomain that is valid,
    not reserved and not live succeeds.  The new tunnel carries the drawn
    id, the requested subdomain and the calling socket; it is found under
    its subdomain and under its id and is the last tunnel of its socket;
    every other key of the three indices answers as before; its pending
    table is empty; [tunnel:created] is emitted; and when the drawn id was
    not live the tunnel count grows by one. *)
Theorem registration_round_trip (options : RegisterOptions) (d : Draws)
    (tm : TunnelManager) (r : string) :
  requestedSubdomain options = Some (JStr r) ->
  isValidSubdomain r = true ->
  ~ In r reservedSubdomains ->
  tunnelsBySubdomain tm !! r = None ->
  length (getTunnelsByWs tm (opt_ws options)) < TUNNEL_CONFIG.MAX_TUNNELS_PER_CLIENT ->
  exists t tm',
    registerTunnel options d tm = Some (Success t, tm') /\
    tunnelId t = drawn_tunnelId d /\ subdomain t = r /\ ws t = opt_ws options /\
    getTunnelBySubdomain tm' (Some r) = Some t /\
    getTunnelById tm' (drawn_tunnelId d) = Some t /\
    getTunnelsByWs tm' (opt_ws options) = getTunnelsByWs tm (opt_ws options) ++ [t] /\
    (forall k, k <> r -> tunnelsBySubdomain tm' !! k = tunnelsBySubdomain tm !! k) /\
    (forall k, k <> drawn_tunnelId d -> getTunnelById tm' k = getTunnelById tm k) /\
    (forall w, w <> opt_ws options -> getTunnelsByWs tm' w = getTunnelsByWs tm w) /\
    pending_of tm' t = [] /\
    trace tm' = trace tm ++ [Emit_tunnel_created t] /\
    (tunnelsById tm !! drawn_tunnelId d = None ->
     getTunnelCount tm' = S (getTunnelCount tm)).
Proof.
  intros Hr Hv Hres Hfree Hcap.
  assert (Hc : choose_subdomain tm (requestedSubdomain options) (drawn_subdomains d)
               = Some (inr r)).
  { rewrite Hr, (choose_valid _ _ _ Hv).
    destruct (Js.includes reservedSubdomains r) eqn:Hi;
      [apply includes_In in Hi; contradiction|].
    apply has_false in Hfree. now rewrite Hfree. }
  unfold registerTunnel. rewrite Hc. unfold getTunnelsByWs in Hcap.
  destruct (Nat.leb_spec TUNNEL_CONFIG.MAX_TUNNELS_PER_CLIENT
              (length (default [] (tunnelsByWs tm !! opt_ws options)))) as [Hle|_];
    [lia|].
  eexists _, _. split; [reflexivity|].
  unfold getTunnelBySubdomain, getTunnelById, getTunnelsByWs, getTunnelCount, pending_of.
  cbn [tunnelId subdomain ws obj tunnelsBySubdomain tunnelsById tunnelsByWs heap trace].
  rewrite (valid_is_lowercase _ Hv), !lookup_insert_eq, lookup_total_insert_eq.
  repeat split; try reflexivity.
  - intros k Hk. now rewrite lookup_insert_ne.
  - intros k Hk. now rewrite lookup_insert_ne.
  - intros w Hw. now rewrite lookup_insert_ne.
  - intros Hfresh. now apply map_size_insert_None.
Qed.

Lemma registration_round_trip_witness :
  exists t tm',
    registerTunnel (Sample.request 2 "hello42") (Sample.draws "Cd5fGh8jKl1m")
      Sample.one_tunnel = Some (Success t, tm') /\
    getTunnelBySubdomain tm' (Some "hello42") = Some t /\
    getTunnelsByWs tm' 2 = [t] /\
    getTunnelCount tm' = 2.
Proof.
  destruct (registration_round_trip (Sample.request 2 "hello42")
              (Sample.draws "Cd5fGh8jKl1m") Sample.one_tunnel "hello42"
              eq_refl eq_refl)
    as (t & tm' & Hreg & _ & _ & _ & Hsub & _ & Hws & _ & _ & _ & _ & _ & Hcount).
  - simpl. intros H. repeat (destruct H as [H|H]; [discriminate H|]). exact H.
  - reflexivity.
  - vm_compute. lia.
  - exists t, tm'. split; [exact Hreg|]. split; [exact Hsub|]. split; [exact Hws|].
    rewrite Hcount; reflexivity.
Defined.

(* ===================================================================== *)
(** * Closing: one tunnel, a socket's tunnels, all tunnels *)
(* ===================================================================== *)

(** After [closeTunnel k] the indices agree on exactly the tunnels they
    agreed on before whose id is not [k]. *)
Lemma closeTunnel_indexed k reason tm x :
  Inv tm ->
  indexed (closeTunnel k reason tm) x <-> indexed tm x /\ tunnelId x <> k.
Proof.
  intros Hinv. destruct (tunnelsById tm !! k) as [a|] eqn:Ha.
  - destruct (closeTunnel_found _ reason _ _ Ha) as (Hsub & Hid & Hws & Hnext & _).
    destruct (inv_id _ Hinv _ _ Ha) as [Hk Hi]. subst k.
    split.
    + intros Hx.
      assert (Hx' : indexed tm x /\ x <> a)
        by (eapply (indexed_closed_inv tm _ a); eauto).
      clear Hx. destruct Hx' as [Hx Hne].
      split; [exact Hx|]. intros He. apply Hne.
      destruct Hx as (_ & Hx & _). congruence.
    + intros [Hx Hne].
      assert (Hxa : x <> a) by (intros ->; now apply Hne).
      eapply (indexed_closed_old tm _ a); eauto.
  - rewrite closeTunnel_absent by exact Ha. split; [|tauto].
    intros Hx. split; [exact Hx|]. intros He. destruct Hx as (_ & Hx & _). congruence.
Qed.

Lemma fold_close_indexed {A} (f : A -> string) reason (l : list A) tm x :
  Inv tm ->
  indexed (fold_left (fun tm a => closeTunnel (f a) reason tm) l tm) x
  <-> indexed tm x /\ tunnelId x ∉ map f l.
Proof.
  revert tm. induction l as [|a l IH]; intros tm Hinv; cbn [fold_left map].
  - split; [|tauto]. intros Hx. split; [exact Hx | apply not_elem_of_nil].
  - rewrite IH by now apply Inv_closeTunnel.
    rewrite closeTunnel_indexed by exact Hinv.
    rewrite not_elem_of_cons. tauto.
Qed.

Lemma closeTunnel_heap_other k reason tm x :
  Inv tm -> indexed tm x -> tunnelId x <> k ->
  heap (closeTunnel k reason tm) !!! obj x = heap tm !!! obj x.
Proof.
  intros Hinv Hx Hne. unfold closeTunnel.
  destruct (tunnelsById tm !! k) as [a|] eqn:Ha; [|reflexivity].
  cbn [heap]. apply lookup_total_insert_ne.
  destruct (inv_id _ Hinv _ _ Ha) as [Hk Hi].
  intros He. apply Hne. symmetry in He.
  rewrite (inv_obj _ Hinv _ _ Hx Hi He). now symmetry.
Qed.

(** Closing a tunnel leaves every other live tunnel as it was: the three
    indices still agree on it, and its pending requests and counters are
    untouched.  The tunnel count drops by one, and by nothing when the id
    names no tunnel. *)
Theorem closeTunnel_frame (tm : TunnelManager) (tunnelId' : string)
    (reason : option string) :
  Inv tm ->
  (forall x : Tunnel,
      live tm x -> tunnelId x <> tunnelId' ->
      indexed (closeTunnel tunnelId' reason tm) x /\
      heap (closeTunnel tunnelId' reason tm) !!! obj x = heap tm !!! obj x) /\
  (is_Some (tunnelsById tm !! tunnelId') ->
   S (getTunnelCount (closeTunnel tunnelId' reason tm)) = getTunnelCount tm) /\
  (tunnelsById tm !! tunnelId' = None ->
   closeTunnel tunnelId' reason tm = tm).
Proof.
  intros Hinv. split; [|split].
  - intros x Hl Hne. apply (live_indexed _ _ Hinv) in Hl. split.
    + apply closeTunnel_indexed; auto.
    + now apply closeTunnel_heap_other.
  - intros [t Ht]. unfold getTunnelCount.
    destruct (closeTunnel_found _ reason _ _ Ht) as (_ & -> & _).
    rewrite map_size_delete_Some by eauto.
    assert (size (tunnelsById tm) <> 0); [|lia].
    intros Hz. apply map_size_empty_inv in Hz. rewrite Hz in Ht.
    now rewrite lookup_empty in Ht.
  - apply closeTunnel_absent.
Qed.

Lemma Inv_three_tunnels : Inv Fixture.three_tunnels.
Proof.
  apply reachable_Inv.
  apply (run_reachable (firstn 3 Sample.history) TunnelManager_new);
    [apply reachable_new | reflexivity].
Qed.

Lemma closeTunnel_frame_witness :
  indexed (closeTunnel "Ab3dEf6hIj9k" None Fixture.three_tunnels) Sample.hello42 /\
  getTunnelCount Fixture.three_tunnels = 3 /\
  getTunnelCount (closeTunnel "Ab3dEf6hIj9k" None Fixture.three_tunnels) = 2.
Proof.
  destruct (closeTunnel_frame Fixture.three_tunnels "Ab3dEf6hIj9k" None
              Inv_three_tunnels) as (Hframe & Hcount & _).
  split; [|split; [reflexivity|]].
  - apply Hframe; [|discriminate]. left. exists "hello42". reflexivity.
  - assert (Hs : is_Some (tunnelsById Fixture.three_tunnels !! "Ab3dEf6hIj9k"))
      by (eexists; reflexivity).
    specialize (Hcount Hs).
    change (getTunnelCount Fixture.three_tunnels) with 3 in Hcount. lia.
Defined.

(** [closeTunnelsForWs] leaves the socket without tunnels: none of the
    tunnels it owned is in any index afterwards, the socket's list is empty,
    and the tunnels of every other socket are indexed as before, with their
    pending requests untouched. *)
Theorem closeTunnelsForWs_empties (tm : TunnelManager) (w : WebSocket)
    (reason : option string) :
  Inv tm ->
  getTunnelsByWs (closeTunnelsForWs w reason tm) w = [] /\
  (forall t, t ∈ getTunnelsByWs tm w -> ~ live (closeTunnelsForWs w reason tm) t) /\
  (forall x, live tm x -> ws x <> w -> indexed (closeTunnelsForWs w reason tm) x) /\
  Inv (closeTunnelsForWs w reason tm).
Proof.
  intros Hinv.
  assert (Hinv' : Inv (closeTunnelsForWs w reason tm))
    by (unfold closeTunnelsForWs; now apply Inv_fold_close).
  assert (Hidx : forall x,
             indexed (closeTunnelsForWs w reason tm) x
             <-> indexed tm x /\ tunnelId x ∉ map tunnelId (getTunnelsByWs tm w))
    by (intros x; unfold closeTunnelsForWs; now apply fold_close_indexed).
  assert (Hown : forall x, indexed tm x -> ws x = w -> x ∈ getTunnelsByWs tm w).
  { intros x (_ & _ & l & Hl & Hx) <-. unfold getTunnelsByWs. now rewrite Hl. }
  assert (Hnone : forall t, t ∈ getTunnelsByWs tm w ->
                            ~ live (closeTunnelsForWs w reason tm) t).
  { intros t Ht Hl. apply (live_indexed _ _ Hinv') in Hl.
    apply Hidx in Hl as [_ Hn]. apply Hn.
    apply list_elem_of_In, in_map, list_elem_of_In. exact Ht. }
  split; [|split; [exact Hnone|split; [|exact Hinv']]].
  - unfold getTunnelsByWs at 1.
    destruct (tunnelsByWs (closeTunnelsForWs w reason tm) !! w) as [l|] eqn:Hl;
      [|reflexivity].
    destruct l as [|y l]; [reflexivity|]. exfalso.
    assert (Hy : y ∈ y :: l) by now left.
    destruct (inv_ws _ Hinv' _ _ _ Hl Hy) as [Hw Hi].
    apply Hidx in Hi as [Hi Hn]. apply Hn.
    apply list_elem_of_In, in_map, list_elem_of_In. now apply Hown.
  - intros x Hl Hne. apply (live_indexed _ _ Hinv) in Hl.
    apply Hidx. split; [exact Hl|].
    intros Hin. apply list_elem_of_In, in_map_iff in Hin as (y & Hy & Hyin).
    apply list_elem_of_In in Hyin.
    assert (Hyi : indexed tm y).
    { unfold getTunnelsByWs in Hyin.
      destruct (tunnelsByWs tm !! w) as [l|] eqn:Hlw;
        [|now apply elem_of_nil in Hyin].
      exact (proj2 (inv_ws _ Hinv _ _ _ Hlw Hyin)). }
    assert (Hyw : ws y = w).
    { unfold getTunnelsByWs in Hyin.
      destruct (tunnelsByWs tm !! w) as [l|] eqn:Hlw;
        [|now apply elem_of_nil in Hyin].
      symmetry. exact (proj1 (inv_ws _ Hinv _ _ _ Hlw Hyin)). }
    apply Hne. rewrite <- Hyw. f_equal.
    destruct Hl as (_ & Hx & _). destruct Hyi as (_ & Hy' & _).
    rewrite <- Hy in Hx. congruence.
Qed.


Lemma closeTunnelsForWs_empties_witness :
  getTunnelsByWs (closeTunnelsForWs 1 (Some "Client disconnected") Fixture.three_tunnels) 1
  = [] /\
  getTunnelsByWs Fixture.three_tunnels 1 = [Sample.demo1; Sample.hello42] /\
  ~ live (closeTunnelsForWs 1 (Some "Client disconnected") Fixture.three_tunnels)
      Sample.demo1.
Proof.
  destruct (closeTunnelsForWs_empties Fixture.three_tunnels 1
              (Some "Client disconnected") Inv_three_tunnels) as (He & Hn & _).
  split; [exact He|]. split; [reflexivity|].
  apply Hn. change (Sample.demo1 ∈ [Sample.demo1; Sample.hello42]). now left.
Defined.


(* ===================================================================== *)
(** * The tunnel count *)
(* ===================================================================== *)

Lemma closeTunnel_sizes k reason tm :
  Inv tm ->
  size (tunnelsBySubdomain tm) = size (tunnelsById tm) ->
  size (tunnelsBySubdomain (closeTunnel k reason tm))
  = size (tunnelsById (closeTunnel k reason tm)).
Proof.
  intros Hinv Hb. destruct (tunnelsById tm !! k) as [a|] eqn:Ha.
  - destruct (closeTunnel_found _ reason _ _ Ha) as (-> & -> & _).
    destruct (inv_id _ Hinv _ _ Ha) as [_ (Hs & _)].
    pose proof (map_size_delete_Some k (tunnelsById tm) (mk_is_Some _ _ Ha)) as H1.
    pose proof (map_size_delete_Some (subdomain a) (tunnelsBySubdomain tm)
                  (mk_is_Some _ _ Hs)) as H2.
    assert (size (tunnelsById tm) <> 0).
    { intros Hz. apply map_size_empty_inv in Hz. rewrite Hz in Ha.
      now rewrite lookup_empty in Ha. }
    lia.
  - now rewrite closeTunnel_absent.
Qed.

Lemma fold_close_sizes {A} (f : A -> string) reason (l : list A) tm :
  Inv tm ->
  size (tunnelsBySubdomain tm) = size (tunnelsById tm) ->
  let tm' := fold_left (fun tm a => closeTunnel (f a) reason tm) l tm in
  size (tunnelsBySubdomain tm') = size (tunnelsById tm').
Proof.
  intros Hinv Hb.
  apply (fold_close_preserves
           (fun tm => Inv tm /\ size (tunnelsBySubdomain tm) = size (tunnelsById tm)));
    [|now split].
  intros k tm0 [Hi Hs]. split; [now apply Inv_closeTunnel | now apply closeTunnel_sizes].
Qed.

Lemma step_sizes op tm tm' :
  Inv tm -> fresh_draw op tm -> step op tm = Some tm' ->
  size (tunnelsBySubdomain tm) = size (tunnelsById tm) ->
  size (tunnelsBySubdomain tm') = size (tunnelsById tm').
Proof.
  intros Hinv Hfresh Hstep Hb.
  destruct op as [options d|k reason|w reason|]; simpl in Hstep.
  - destruct (registerTunnel options d tm) as [[[t|error code] tm'']|] eqn:Hreg;
      [| |discriminate]; injection Hstep as <-.
    + apply registerTunnel_success_inv in Hreg
        as (s & Hc & _ & _ & -> & -> & _).
      apply choose_passed in Hc as (_ & Hnone & _).
      rewrite !map_size_insert_None by assumption. now rewrite Hb.
    + apply registerTunnel_failure_inv in Hreg. now subst.
  - injection Hstep as <-. now apply closeTunnel_sizes.
  - injection Hstep as <-. unfold closeTunnelsForWs.
    now apply (fold_close_sizes tunnelId).
  - injection Hstep as <-. unfold closeAll.
    now apply (fold_close_sizes (fun k => k)).
Qed.

Lemma reachable_sizes tm :
  reachable tm -> size (tunnelsBySubdomain tm) = size (tunnelsById tm).
Proof.
  induction 1 as [|op tm tm' Hr IH Hf Hs]; [reflexivity|].
  exact (step_sizes _ _ _ (reachable_Inv _ Hr) Hf Hs IH).
Qed.

(** [getTunnelCount], the size of the id map, is at every moment the
    number of subdomains in use: after any sequence of registrations and
    closes (each registration drawing an id that is not live) the subdomain
    map and the id map have the same number of entries, and a successful
    registration raises the count by exactly one while a refused one leaves
    it. *)
Theorem getTunnelCount_counts_subdomains (ops : list Op) (tm : TunnelManager) :
  run ops TunnelManager_new = Some tm ->
  size (tunnelsBySubdomain tm) = getTunnelCount tm /\
  forall options d result tm',
    tunnelsById tm !! drawn_tunnelId d = None ->
    registerTunnel options d tm = Some (result, tm') ->
    getTunnelCount tm' =
    match result with
    | Success _ => S (getTunnelCount tm)
    | Failure _ _ => getTunnelCount tm
    end.
Proof.
  intros Hrun. split.
  - apply reachable_sizes. exact (run_reachable _ _ _ reachable_new Hrun).
  - intros options d [t|error code] tm' Hfresh Hreg.
    + apply registerTunnel_success_inv in Hreg as (s & _ & _ & _ & _ & Hid & _).
      unfold getTunnelCount. rewrite Hid. now apply map_size_insert_None.
    + apply registerTunnel_failure_inv in Hreg. now subst.
Qed.

Lemma getTunnelCount_counts_subdomains_witness :
  exists tm,
    run Sample.history TunnelManager_new = Some tm /\
    size (tunnelsBySubdomain tm) = getTunnelCount tm /\
    getTunnelCount tm = 1.
Proof.
  destruct (run Sample.history TunnelManager_new) as [tm|] eqn:Hrun;
    [|vm_compute in Hrun; discriminate Hrun].
  exists tm. split; [reflexivity|].
  split; [exact (proj1 (getTunnelCount_counts_subdomains Sample.history tm Hrun))|].
  vm_compute in Hrun. injection Hrun as <-. reflexivity.
Defined.

(* ===================================================================== *)
(** * The table of pending requests *)
(* ===================================================================== *)

Lemma get_set_eq {V} (k : string) (v : V) (m : list (string * V)) :
  OrderedMap.get k (OrderedMap.set k v m) = Some v.
Proof.
  induction m as [|[k' v'] m IH]; simpl.
  - now rewrite String.eqb_refl.
  - destruct (String.eqb k' k) eqn:He; simpl.
    + now rewrite String.eqb_refl.
    + now rewrite He.
Qed.

Lemma get_set_ne {V} (k k' : string) (v : V) (m : list (string * V)) :
  k <> k' -> OrderedMap.get k' (OrderedMap.set k v m) = OrderedMap.get k' m.
Proof.
  intros Hne. induction m as [|[k0 v0] m IH]; simpl.
  - now apply String.eqb_neq in Hne as ->.
  - destruct (String.eqb k0 k) eqn:He; simpl.
    + apply String.eqb_eq in He as ->. now apply String.eqb_neq in Hne as ->.
    + destruct (String.eqb k0 k'); [reflexivity | exact IH].
Qed.

Lemma get_delete_ne {V} (k k' : string) (m : list (string * V)) :
  k <> k' -> OrderedMap.get k' (OrderedMap.delete k m) = OrderedMap.get k' m.
Proof.
  intros Hne. induction m as [|[k0 v0] m IH]; simpl; [reflexivity|].
  destruct (String.eqb k0 k) eqn:He; simpl.
  - apply String.eqb_eq in He as ->. now apply String.eqb_neq in Hne as ->.
  - destruct (String.eqb k0 k'); [reflexivity | exact IH].
Qed.

Lemma delete_fresh {V} (k : string) (m : list (string * V)) :
  OrderedMap.get k m = None -> OrderedMap.delete k m = m.
Proof.
  induction m as [|[k0 v0] m IH]; simpl; [reflexivity|].
  destruct (String.eqb k0 k); [discriminate|]. intros Hg. now rewrite IH.
Qed.

Lemma delete_set_fresh {V} (k : string) (v : V) (m : list (string * V)) :
  OrderedMap.get k m = None -> OrderedMap.delete k (OrderedMap.set k v m) = m.
Proof.
  induction m as [|[k0 v0] m IH]; simpl.
  - now rewrite String.eqb_refl.
  - destruct (String.eqb k0 k) eqn:He; [discriminate|]. intros Hg.
    simpl. rewrite He. now rewrite IH.
Qed.

(** The pending table of a tunnel behaves as a map from request ids: an
    added entry is read back under its id and hides nothing else, a removed
    id reads as absent and no other id is affected, neither touches the
    counters, and adding then removing an id that was not pending gives the
    tunnel back as it was. *)
Theorem pending_table (requestId requestId' : string) (d : nat) (now : Z)
    (data : TunnelData) :
  Tunnel_getPendingRequest requestId' (Tunnel_addPendingRequest requestId d now data)
  = (if String.eqb requestId requestId'
     then Some {| deferred := d; startTime := now |}
     else Tunnel_getPendingRequest requestId' data) /\
  Tunnel_getPendingRequest requestId' (Tunnel_removePendingRequest requestId data)
  = (if String.eqb requestId requestId' then None
     else Tunnel_getPendingRequest requestId' data) /\
  requestCount (Tunnel_addPendingRequest requestId d now data) = requestCount data /\
  requestCount (Tunnel_removePendingRequest requestId data) = requestCount data /\
  (Tunnel_getPendingRequest requestId data = None ->
   Tunnel_removePendingRequest requestId (Tunnel_addPendingRequest requestId d now data)
   = data).
Proof.
  unfold Tunnel_getPendingRequest, Tunnel_addPendingRequest, Tunnel_removePendingRequest.
  cbn [pendingRequests requestCount lastActivity bytesIn bytesOut].
  destruct (String.eqb_spec requestId requestId') as [<-|Hne].
  - split; [apply get_set_eq|]. split; [apply get_delete|].
    split; [reflexivity|]. split; [reflexivity|].
    intros Hg. rewrite delete_set_fresh by exact Hg. now destruct data.
  - split; [now apply get_set_ne|]. split; [now apply get_delete_ne|].
    split; [reflexivity|]. split; [reflexivity|].
    intros Hg. rewrite delete_set_fresh by exact Hg. now destruct data.
Qed.

(* ===================================================================== *)
(** * Exchanges from end to end *)
(* ===================================================================== *)

Lemma owner_of_pending_none requestId l tm :
  (forall t', t' ∈ l ->
              Tunnel_getPendingRequest requestId (heap tm !!! obj t') = None) ->
  owner_of_pending requestId l tm = None.
Proof.
  induction l as [|a l IH]; intros Hl; cbn [owner_of_pending]; [reflexivity|].
  rewrite (Hl a) by now left.
  apply IH. intros t' Ht'. apply Hl. now right.
Qed.

Lemma heap_with_tunnel_ne t f tm x :
  obj x <> obj t -> heap (with_tunnel t f tm) !!! obj x = heap tm !!! obj x.
Proof.
  intros Hne. unfold with_tunnel. cbn [heap].
  apply lookup_total_insert_ne. congruence.
Qed.

Lemma owner_after_add tm t requestId d now l :
  Inv tm -> indexed tm t ->
  (forall t', t' ∈ l -> indexed tm t') -> t ∈ l ->
  (forall t', t' ∈ l ->
              Tunnel_getPendingRequest requestId (heap tm !!! obj t') = None) ->
  owner_of_pending requestId l
    (with_tunnel t (Tunnel_addPendingRequest requestId d now) tm) = Some t.
Proof.
  intros Hinv Ht. induction l as [|a l IH]; intros Hidx Hin Hfresh.
  - now apply elem_of_nil in Hin.
  - cbn [owner_of_pending].
    destruct (decide (obj a = obj t)) as [He|Hne].
    + assert (a = t) as ->
        by (apply (inv_obj _ Hinv); [apply Hidx; now left | exact Ht | exact He]).
      rewrite heap_with_tunnel.
      unfold Tunnel_getPendingRequest, Tunnel_addPendingRequest.
      cbn [pendingRequests]. now rewrite get_set_eq.
    + rewrite heap_with_tunnel_ne by exact Hne.
      rewrite (Hfresh a) by now left.
      apply IH.
      * intros t' Ht'. apply Hidx. now right.
      * apply elem_of_cons in Hin as [->|Hin]; [congruence | exact Hin].
      * intros t' Ht'. apply Hfresh. now right.
Qed.

Lemma socket_tunnels_indexed tm w t :
  Inv tm -> t ∈ getTunnelsByWs tm w -> w = ws t /\ indexed tm t.
Proof.
  intros Hinv Hin. unfold getTunnelsByWs in Hin.
  destruct (tunnelsByWs tm !! w) as [l|] eqn:Hl;
    [|now apply elem_of_nil in Hin].
  exact (inv_ws _ Hinv _ _ _ Hl Hin).
Qed.

Lemma indexed_on_socket tm t : indexed tm t -> t ∈ getTunnelsByWs tm (ws t).
Proof. intros (_ & _ & l & Hl & Hin). unfold getTunnelsByWs. now rewrite Hl. Qed.

Section Exchanges.
Context `{Buffer}.

Lemma forward_begin_awaiting sub req d g t :
  getTunnelBySubdomain (tunnelManager g) (Some sub) = Some t ->
  exists x g1,
    forward_begin sub req true d g = (Awaiting x, g1) /\
    x_tunnel x = t /\ x_requestId x = fd_requestId d /\ x_deferred x = fd_deferred d /\
    tunnelManager g1
    = with_tunnel t
        (Tunnel_addPendingRequest (fd_requestId d) (fd_deferred d) (fd_pendingStart d))
        (tunnelManager g) /\
    exists message,
      output g1 = output g ++ [Ws_send (ws t) message] /\
      m_requestId message = fd_requestId d /\
      m_method message = req_method req /\ m_path message = req_originalUrl req.
Proof.
  intros Hlook. unfold forward_begin. rewrite Hlook. cbn [negb].
  eexists _, _. split; [reflexivity|]. cbn [x_tunnel x_requestId x_deferred tunnelManager output].
  repeat split. eexists. split; [reflexivity|]. repeat split.
Qed.

(** An exchange from end to end.  A request for the subdomain of a live
    tunnel whose socket is open is put into the tunnel's pending table under
    its new request id and sent as one frame on the tunnel's socket.  The
    [http:response] frame that arrives on that socket is matched to it by
    the socket handler; the promise is resolved once with the payload, the
    pending table is again what it was before the request, and the public
    side gets exactly one reply: the status of the payload, its headers
    without the hop-by-hop ones in any letter case, and the decoded body. *)
Theorem exchange_round_trip (g : Gateway) (sub : string) (t : Tunnel)
    (req : HttpRequest) (d : ForwardDraws) (payload : HttpResponse) (c : FinishClock) :
  Inv (tunnelManager g) ->
  getTunnelBySubdomain (tunnelManager g) (Some sub) = Some t ->
  (forall t', t' ∈ getTunnelsByWs (tunnelManager g) (ws t) ->
              Tunnel_getPendingRequest (fd_requestId d)
                (heap (tunnelManager g) !!! obj t') = None) ->
  exists x g1,
    forward_begin sub req true d g = (Awaiting x, g1) /\
    x_tunnel x = t /\ x_requestId x = fd_requestId d /\
    Tunnel_getPendingRequest (fd_requestId d) (heap (tunnelManager g1) !!! obj t)
    = Some {| deferred := fd_deferred d; startTime := fd_pendingStart d |} /\
    handleHttpResponse (ws t) (fd_requestId d) payload (tunnelManager g1)
    = settle_exchange x (ResponseReceived payload) (tunnelManager g1) /\
    let g2 := complete x (ResponseReceived payload) c g1 in
    pending_of (tunnelManager g2) t = pending_of (tunnelManager g) t /\
    trace (tunnelManager g2)
    = trace (tunnelManager g) ++ [Resolve (fd_deferred d) payload] /\
    exists message headers,
      output g2
      = output g ++ [Ws_send (ws t) message;
                     Http_send (statusCode payload) headers (decoded_body payload)] /\
      m_requestId message = fd_requestId d /\
      (forall kv, kv ∈ headers <->
                  kv ∈ default [] (res_headers payload) /\
                  ~ In (Js.toLowerCase (fst kv)) hopByHopHeaders).
Proof.
  intros Hinv Hlook Hfresh.
  assert (Ht : indexed (tunnelManager g) t)
    by (exact (proj2 (inv_sub _ Hinv _ _ Hlook))).
  destruct (forward_begin_awaiting sub req d g t Hlook)
    as (x & g1 & Hb & Hxt & Hxr & Hxd & Htm & message & Hout & Hmid & _).
  exists x, g1. split; [exact Hb|]. split; [exact Hxt|]. split; [exact Hxr|].
  assert (Hpend : Tunnel_getPendingRequest (fd_requestId d)
                    (heap (tunnelManager g1) !!! obj t)
                  = Some {| deferred := fd_deferred d; startTime := fd_pendingStart d |}).
  { rewrite Htm, heap_with_tunnel.
    unfold Tunnel_getPendingRequest, Tunnel_addPendingRequest. cbn [pendingRequests].
    apply get_set_eq. }
  split; [exact Hpend|].
  assert (Hsettled : settle_exchange x (ResponseReceived payload) (tunnelManager g1)
                     = settle (Resolve (fd_deferred d) payload)
                         (with_tunnel t (Tunnel_removePendingRequest (fd_requestId d))
                            (tunnelManager g1))).
  { cbn [settle_exchange]. rewrite Hxt, Hxr. unfold handleResponse.
    now rewrite Hpend. }
  split.
  - unfold handleHttpResponse.
    replace (getTunnelsByWs (tunnelManager g1) (ws t))
      with (getTunnelsByWs (tunnelManager g) (ws t)) by now rewrite Htm.
    rewrite Htm.
    rewrite (owner_after_add (tunnelManager g) t); auto.
    + rewrite <- Htm. cbn [settle_exchange]. now rewrite Hxt, Hxr.
    + intros t' Ht'. exact (proj2 (socket_tunnels_indexed _ _ _ Hinv Ht')).
    + now apply indexed_on_socket.
  - cbv zeta. unfold complete. cbn [settlement_of forward_finish tunnelManager output].
    rewrite Hsettled, Hxt.
    split; [|split].
    + unfold pending_of. rewrite heap_with_tunnel. cbn [Tunnel_recordRequest pendingRequests].
      rewrite heap_settle, heap_with_tunnel. rewrite Htm, heap_with_tunnel.
      unfold Tunnel_removePendingRequest, Tunnel_addPendingRequest. cbn [pendingRequests].
      apply delete_set_fresh. apply (Hfresh t). now apply indexed_on_socket.
    + cbn [with_tunnel settle trace]. now rewrite Htm.
    + eexists message, _. split; [|split; [exact Hmid|]].
      * rewrite Hout, <- app_assoc. reflexivity.
      * intros kv. rewrite list_elem_of_filter.
        rewrite <- includes_In.
        destruct (Js.includes hopByHopHeaders (Js.toLowerCase (fst kv))); cbn [negb];
          split; intros [H1 H2]; split; auto; try discriminate; try congruence.
Qed.

(** Only the socket that owns the tunnel can answer.  While a request
    awaits its reply, an [http:response] or [http:error] frame that names its
    request id but arrives on another socket, none of whose tunnels has that
    id pending, changes nothing: the request stays pending and no promise is
    settled. *)
Theorem only_owner_settles (g : Gateway) (sub : string) (t : Tunnel)
    (req : HttpRequest) (d : ForwardDraws) (w : WebSocket) :
  Inv (tunnelManager g) ->
  getTunnelBySubdomain (tunnelManager g) (Some sub) = Some t ->
  w <> ws t ->
  (forall t', t' ∈ getTunnelsByWs (tunnelManager g) w ->
              Tunnel_getPendingRequest (fd_requestId d)
                (heap (tunnelManager g) !!! obj t') = None) ->
  let tm1 := tunnelManager (snd (forward_begin sub req true d g)) in
  is_Some (Tunnel_getPendingRequest (fd_requestId d) (heap tm1 !!! obj t)) /\
  forall (payload : HttpResponse) (error : string) (code : option string),
    handleHttpResponse w (fd_requestId d) payload tm1 = tm1 /\
    handleHttpError w (fd_requestId d) error code tm1 = tm1.
Proof.
  intros Hinv Hlook Hw Hfresh.
  assert (Ht : indexed (tunnelManager g) t)
    by (exact (proj2 (inv_sub _ Hinv _ _ Hlook))).
  destruct (forward_begin_awaiting sub req d g t Hlook)
    as (x & g1 & Hb & _ & _ & _ & Htm & _).
  rewrite Hb. cbn [snd]. cbv zeta. rewrite Htm. split.
  - rewrite heap_with_tunnel.
    unfold Tunnel_getPendingRequest, Tunnel_addPendingRequest. cbn [pendingRequests].
    rewrite get_set_eq. eauto.
  - assert (Hnone : owner_of_pending (fd_requestId d)
                      (getTunnelsByWs (tunnelManager g) w)
                      (with_tunnel t
                         (Tunnel_addPendingRequest (fd_requestId d) (fd_deferred d)
                            (fd_pendingStart d)) (tunnelManager g)) = None).
    { apply owner_of_pending_none. intros t' Ht'.
      destruct (socket_tunnels_indexed _ _ _ Hinv Ht') as [Hws Hi].
      rewrite heap_with_tunnel_ne; [now apply Hfresh|].
      intros He. apply Hw. rewrite Hws. f_equal.
      exact (inv_obj _ Hinv _ _ Hi Ht He). }
    intros payload error code. unfold handleHttpResponse, handleHttpError.
    change (getTunnelsByWs (with_tunnel t _ (tunnelManager g)) w)
      with (getTunnelsByWs (tunnelManager g) w).
    now rewrite Hnone.
Qed.

(** A promise is settled at most once.  After the event that settles an
    exchange, whichever of the three it is, a further response or error
    frame for the same request is dropped: the registry and its trace of
    settlements stay as they are.  The same holds for every request of a
    tunnel once the tunnel is closed. *)
Theorem settled_at_most_once (x : Exchange) (o : Outcome) (tm : TunnelManager)
    (payload : HttpResponse) (error : string) (code : option string) :
  (let tm' := settle_exchange x o tm in
   handleResponse (x_tunnel x) (x_requestId x) payload tm' = tm' /\
   handleError (x_tunnel x) (x_requestId x) error code tm' = tm') /\
  (forall tunnelId reason t requestId,
      tunnelsById tm !! tunnelId = Some t ->
      let tm' := closeTunnel tunnelId reason tm in
      handleResponse t requestId payload tm' = tm' /\
      handleError t requestId error code tm' = tm').
Proof.
  split.
  - cbv zeta. unfold handleResponse at 1, handleError at 1.
    now rewrite settled_not_pending.
  - intros k reason t rid Hk. cbv zeta.
    destruct (closeTunnel_found k reason tm t Hk) as (_ & _ & _ & _ & Hp & _).
    unfold pending_of in Hp.
    unfold handleResponse, handleError, Tunnel_getPendingRequest. now rewrite Hp.
Qed.

(** A request that arrives after its tunnel is closed, by [closeTunnel] or
    with all the tunnels of its socket on disconnect, is answered 404
    [TUNNEL_NOT_FOUND] at once: no frame is sent, nothing is recorded by the
    inspector and the registry is not touched. *)
Theorem closed_tunnel_answers_404 (tm : TunnelManager) (s : InspectorService)
    (out : list ForwarderEvent) (sub : string) (t : Tunnel) (reason : option string)
    (req : HttpRequest) (socket_open : bool) (d : ForwardDraws) :
  Inv tm ->
  getTunnelBySubdomain tm (Some sub) = Some t ->
  forall tm',
    tm' = closeTunnel (tunnelId t) reason tm \/ tm' = closeTunnelsForWs (ws t) reason tm ->
    forward_begin sub req socket_open d
      {| tunnelManager := tm'; inspectorService := s; output := out |}
    = (Answered,
       {| tunnelManager := tm'; inspectorService := s;
          output := out ++ [Http_json 404 "Tunnel not found" TUNNEL_NOT_FOUND None] |}).
Proof.
  intros Hinv Hlook tm' Htm'.
  destruct (inv_sub _ Hinv _ _ Hlook) as [Hkey Ht].
  assert (Hinv' : Inv tm').
  { destruct Htm' as [->| ->]; [now apply Inv_closeTunnel|].
    unfold closeTunnelsForWs. now apply Inv_fold_close. }
  assert (Hgone : ~ indexed tm' t).
  { destruct Htm' as [->| ->].
    - rewrite closeTunnel_indexed by exact Hinv. tauto.
    - unfold closeTunnelsForWs. rewrite fold_close_indexed by exact Hinv.
      intros [_ Hn]. apply Hn.
      apply list_elem_of_In, in_map, list_elem_of_In. now apply indexed_on_socket. }
  assert (Hnone : tunnelsBySubdomain tm' !! Js.toLowerCase sub = None).
  { destruct (tunnelsBySubdomain tm' !! Js.toLowerCase sub) as [t'|] eqn:Hk;
      [|reflexivity].
    exfalso. destruct (inv_sub _ Hinv' _ _ Hk) as [Hkey' Ht'].
    assert (Hold : indexed tm t').
    { destruct Htm' as [->| ->].
      - now apply (closeTunnel_indexed _ _ _ _ Hinv) in Ht' as [Ht' _].
      - unfold closeTunnelsForWs in Ht'.
        now apply (fold_close_indexed _ _ _ _ _ Hinv) in Ht' as [Ht' _]. }
    destruct Hold as (Hs & _). cbn [getTunnelBySubdomain] in Hlook.
    rewrite Hkey', Hs in Hlook. injection Hlook as ->. now apply Hgone. }
  unfold forward_begin. cbn [tunnelManager getTunnelBySubdomain].
  now rewrite Hnone.
Qed.

End Exchanges.

Lemma Inv_one_tunnel : Inv Sample.one_tunnel.
Proof.
  apply reachable_Inv.
  apply (reachable_step
           (OpRegister (Sample.request 1 "demo1") (Sample.draws "Ab3dEf6hIj9k"))
           TunnelManager_new); [apply reachable_new | reflexivity | reflexivity].
Qed.

Lemma exchange_round_trip_witness :
  exists x g1 message headers,
    @forward_begin Sample.buffer "demo1" Sample.post_hello true Sample.forward_draws
      Sample.gateway = (Awaiting x, g1) /\
    pending_of
      (tunnelManager (@complete Sample.buffer x (ResponseReceived Sample.pong)
                        Sample.clock g1)) Sample.demo1 = [] /\
    output (@complete Sample.buffer x (ResponseReceived Sample.pong) Sample.clock g1)
    = [Ws_send 1 message; Http_send 200 headers (Some "pong")] /\
    ("content-type", "text/plain") ∈ headers /\
    ("Connection", "close") ∉ headers.
Proof.
  destruct (@exchange_round_trip Sample.buffer Sample.gateway "demo1" Sample.demo1
              Sample.post_hello Sample.forward_draws Sample.pong Sample.clock
              Inv_one_tunnel eq_refl)
    as (x & g1 & Hb & _ & _ & _ & _ & Hp & _ & message & headers & Hout & _ & Hh).
  { intros t' Ht'.
    change (t' ∈ [Sample.demo1]) in Ht'.
    apply list_elem_of_singleton in Ht' as ->. reflexivity. }
  exists x, g1, message, headers.
  split; [exact Hb|]. split; [exact Hp|]. split; [exact Hout|]. split.
  - apply Hh. split.
    + change (("content-type", "text/plain")
                ∈ [("content-type", "text/plain"); ("Connection", "close")]).
      now left.
    + vm_compute. intuition discriminate.
  - intros Hin. apply Hh in Hin as [_ Hn]. apply Hn. vm_compute. auto.
Defined.

Lemma only_owner_settles_witness :
  handleHttpResponse 2 "00000000000000c1" Sample.pong (tunnelManager Sample.forwarded)
  = tunnelManager Sample.forwarded.
Proof.
  assert (Hfresh :
            forall t', t' ∈ getTunnelsByWs (tunnelManager Sample.gateway) 2 ->
                       Tunnel_getPendingRequest (fd_requestId Sample.forward_draws)
                         (heap (tunnelManager Sample.gateway) !!! obj t') = None).
  { intros t' Ht'. change (t' ∈ @nil Tunnel) in Ht'. now apply elem_of_nil in Ht'. }
  assert (Hw : 2 <> ws Sample.demo1) by discriminate.
  exact (proj1 (proj2 (@only_owner_settles Sample.buffer Sample.gateway "demo1"
                         Sample.demo1 Sample.post_hello Sample.forward_draws 2
                         Inv_one_tunnel eq_refl Hw Hfresh)
                  Sample.pong "" None)).
Defined.

Lemma closed_tunnel_answers_404_witness :
  fst (@forward_begin Sample.buffer "Demo1" Sample.post_hello true Sample.forward_draws
         {| tunnelManager := closeTunnel "Ab3dEf6hIj9k" None Sample.one_tunnel;
            inspectorService := InspectorService_new None; output := [] |})
  = Answered.
Proof.
  rewrite (@closed_tunnel_answers_404 Sample.buffer Sample.one_tunnel
             (InspectorService_new None) [] "Demo1" Sample.demo1 None
             Sample.post_hello true Sample.forward_draws Inv_one_tunnel eq_refl
             (closeTunnel "Ab3dEf6hIj9k" None Sample.one_tunnel) (or_introl eq_refl)).
  reflexivity.
Defined.

(* ===================================================================== *)
(** * The inspector: lookup after capture, and the periodic sweep *)
(* ===================================================================== *)

Lemma enforce_global_nonempty max l (byId : gmap string InspectedTraffic) :
  1 <= max -> l <> [] -> fst (enforce_global max l byId) <> [].
Proof.
  intros Hmax. revert byId. induction l as [|x l IH]; intros byId Hl; [congruence|].
  cbn [enforce_global].
  destruct (Nat.ltb_spec max (length (x :: l))) as [Hlt|Hge]; [|exact Hl].
  apply IH. intros ->. simpl in Hlt. lia.
Qed.

Lemma prefix_of_snoc {A} (ev kept l : list A) (x : A) :
  l ++ [x] = ev ++ kept -> kept <> [] ->
  (forall e, e ∈ ev -> e ∈ l) /\ last kept = Some x.
Proof.
  intros He Hk.
  destruct (exists_last Hk) as (kept' & y & ->).
  rewrite app_assoc in He. apply app_inj_tail in He as [-> ->].
  split.
  - intros e Hin. apply elem_of_app. now left.
  - apply last_snoc.
Qed.

(** A captured request can be looked up at once.  When the bound of the
    store is at least one, as it is for every store the constructor builds,
    and no stored exchange carries the same request id, then right after
    [recordRequest] the lookup map gives the new exchange under its id, it is
    the newest entry of the global buffer, [getCurlCommand] renders it, and
    the response recorded next for that id is attached to it. *)
Theorem recorded_request_retrievable (request : InspectData) (now : Z)
    (s : InspectorService) :
  1 <= maxStoredRequests s ->
  (forall e, e ∈ allTraffic s -> requestId e <> i_requestId request) ->
  let traffic := fst (recordRequest request now s) in
  let s' := snd (recordRequest request now s) in
  traffic = {| it_obj := it_next s; it_request := request; it_createdAt := now |} /\
  trafficByRequestId s' !! i_requestId request = Some traffic /\
  last (allTraffic s') = Some traffic /\
  getCurlCommand (i_requestId request) s' = Some (toCurl traffic) /\
  forall resp,
    r_requestId resp = i_requestId request ->
    responses (recordResponse resp s') !! it_obj traffic
    = Some {| response := resp; responseTime := r_responseTime resp |}.
Proof.
  intros Hmax Hfresh. cbv zeta.
  assert (Hfst : fst (recordRequest request now s)
                 = {| it_obj := it_next s; it_request := request; it_createdAt := now |})
    by reflexivity.
  rewrite Hfst.
  set (traffic := {| it_obj := it_next s; it_request := request; it_createdAt := now |}).
  assert (Hlook : trafficByRequestId (snd (recordRequest request now s))
                    !! i_requestId request = Some traffic
                  /\ last (allTraffic (snd (recordRequest request now s))) = Some traffic).
  { unfold recordRequest, enforceLimit. cbn zeta.
    fold traffic.
    cbn [maxStoredRequests allTraffic trafficByRequestId trafficByTunnel responses
         it_next emitted snd].
    destruct (enforce_global_spec (maxStoredRequests s) (allTraffic s ++ [traffic])
                (<[i_requestId request := traffic]> (trafficByRequestId s)))
      as (ev & Hl & _ & Hp & _).
    pose proof (enforce_global_nonempty (maxStoredRequests s) (allTraffic s ++ [traffic])
                  (<[i_requestId request := traffic]> (trafficByRequestId s)) Hmax) as Hne.
    destruct (enforce_global _ _ _) as [all' byId'] eqn:Hg.
    cbn [fst snd] in *.
    cbn [maxStoredRequests allTraffic trafficByRequestId trafficByTunnel].
    destruct (prefix_of_snoc ev all' (allTraffic s) traffic Hl) as [Hev Hlast].
    { apply Hne. intros Hnil. now apply app_eq_nil in Hnil as [_ Hnil]. }
    split; [|exact Hlast].
    rewrite Hp, purge_lookup. rewrite decide_False.
    - apply lookup_insert_eq.
    - intros Hin. apply list_elem_of_In, in_map_iff in Hin as (e & He & Hine).
      apply (Hfresh e); [apply Hev; now apply list_elem_of_In | exact He]. }
  destruct Hlook as [Hlook Hlast].
  split; [reflexivity|]. split; [exact Hlook|]. split; [exact Hlast|]. split.
  - unfold getCurlCommand. now rewrite Hlook.
  - intros resp Hr. apply recordResponse_stored. now rewrite Hr.
Qed.

Lemma recorded_request_retrievable_witness :
  getCurlCommand "00000000000000a2" Sample.inspector2 = Some (toCurl Sample.traffic2).
Proof.
  assert (Hmax : 1 <= maxStoredRequests Sample.inspector1) by (vm_compute; lia).
  assert (Hfresh : forall e, e ∈ allTraffic Sample.inspector1 ->
                             requestId e <> "00000000000000a2").
  { intros e He. change (e ∈ [Sample.traffic1]) in He.
    apply list_elem_of_singleton in He as ->. discriminate. }
  exact (proj1 (proj2 (proj2 (proj2
           (recorded_request_retrievable
              (Sample.inspect "00000000000000a2" "Ab3dEf6hIj9k") 1002
              Sample.inspector1 Hmax Hfresh))))).
Defined.

(** The sweep keeps what is recent and nothing else.  After [cleanup] an
    exchange is in the global buffer, in a per-tunnel buffer or in the
    lookup map exactly when it was there before and was created at or after
    the cutoff, the clock minus the retention in milliseconds; the buffers
    keep their order; and no tunnel's key is dropped from the per-tunnel map,
    even when its buffer becomes empty. *)
Theorem cleanup_retention (retentionMinutes now : Z) (s : InspectorService) :
  let cutoff := (now - retentionMinutes * 60 * 1000)%Z in
  let s' := cleanup retentionMinutes now s in
  (forall t, t ∈ allTraffic s' <-> t ∈ allTraffic s /\ (cutoff <= it_createdAt t)%Z) /\
  sublist (allTraffic s') (allTraffic s) /\
  (forall tid, is_Some (trafficByTunnel s' !! tid) <-> is_Some (trafficByTunnel s !! tid)) /\
  (forall tid l', trafficByTunnel s' !! tid = Some l' ->
     exists l, trafficByTunnel s !! tid = Some l /\ sublist l' l /\
               forall t, t ∈ l' <-> t ∈ l /\ (cutoff <= it_createdAt t)%Z) /\
  (forall k t, trafficByRequestId s' !! k = Some t <->
               trafficByRequestId s !! k = Some t /\ (cutoff <= it_createdAt t)%Z).
Proof.
  cbv zeta. unfold cleanup.
  cbn [allTraffic trafficByTunnel trafficByRequestId].
  set (cutoff := (now - retentionMinutes * 60 * 1000)%Z).
  assert (Hf : forall (l : list InspectedTraffic) t,
             t ∈ filter (fun t => (cutoff <=? it_createdAt t)%Z) l
             <-> t ∈ l /\ (cutoff <= it_createdAt t)%Z).
  { intros l t. rewrite list_elem_of_filter.
    destruct (Z.leb_spec cutoff (it_createdAt t)); simpl; intuition lia. }
  split; [apply Hf|]. split; [apply sublist_filter|]. split; [|split].
  - intros tid. rewrite lookup_fmap. apply fmap_is_Some.
  - intros tid l'. rewrite lookup_fmap.
    destruct (trafficByTunnel s !! tid) as [l|]; [|discriminate].
    intros [= <-]. exists l. split; [reflexivity|].
    split; [apply sublist_filter | apply Hf].
  - intros k t. rewrite map_lookup_filter_Some. cbn [snd].
    destruct (Z.ltb_spec (it_createdAt t) cutoff); simpl; intuition lia.
Qed.

(* ===================================================================== *)
(** * The socket handler: close frames and the heartbeat *)
(* ===================================================================== *)

(** A [tunnel:close] frame closes the tunnel it names whichever socket sent
    it: the handler does not compare the sender with the tunnel's owner.
    The tunnel leaves every index and the [tunnel:closed] event carries the
    reason of the frame, or [Client requested close] when the frame has none
    or an empty one. *)
Theorem tunnel_close_from_any_socket (w : WebSocket) (tunnelId' : string)
    (reason : option string) (tm : TunnelManager) (t : Tunnel) :
  Inv tm ->
  tunnelsById tm !! tunnelId' = Some t ->
  let tm' := handleTunnelClose w tunnelId' reason tm in
  ~ live tm' t /\
  getTunnelById tm' tunnelId' = None /\
  (t ∉ getTunnelsByWs tm' (ws t)) /\
  last (trace tm')
  = Some (Emit_tunnel_closed t
            match reason with
            | Some "" | None => "Client requested close"
            | Some r => r
            end).
Proof.
  intros Hinv Hk. cbv zeta. unfold handleTunnelClose.
  set (r := match reason with
            | Some r => if Js.truthy r then r else "Client requested close"
            | None => "Client requested close"
            end).
  destruct (closeTunnel_found tunnelId' (Some r) tm t Hk)
    as (Hsub & Hid & Hws & Hnext & _ & Htr).
  destruct (inv_id _ Hinv _ _ Hk) as [Hkey Ht]. subst tunnelId'.
  assert (Hnl : ~ live (closeTunnel (tunnelId t) (Some r) tm) t)
    by (eapply (closed_not_live tm _ t); eauto).
  split; [exact Hnl|]. split; [|split].
  - unfold getTunnelById. rewrite Hid. apply lookup_delete_eq.
  - intros Hin. apply Hnl. right. right.
    unfold getTunnelsByWs in Hin.
    destruct (tunnelsByWs (closeTunnel (tunnelId t) (Some r) tm) !! ws t) as [l|] eqn:Hl;
      [eauto | now apply elem_of_nil in Hin].
  - rewrite Htr, !app_assoc, last_snoc. cbn [default]. f_equal. f_equal.
    subst r. destruct reason as [[|c s]|]; reflexivity.
Qed.

Lemma tunnel_close_from_any_socket_witness :
  ws Sample.demo1 = 1 /\
  ~ live (handleTunnelClose 9 "Ab3dEf6hIj9k" (Some "") Sample.one_tunnel) Sample.demo1 /\
  last (trace (handleTunnelClose 9 "Ab3dEf6hIj9k" (Some "") Sample.one_tunnel))
  = Some (Emit_tunnel_closed Sample.demo1 "Client requested close").
Proof.
  destruct (tunnel_close_from_any_socket 9 "Ab3dEf6hIj9k" (Some "") Sample.one_tunnel
              Sample.demo1 Inv_one_tunnel eq_refl) as (Hnl & _ & _ & Htr).
  split; [reflexivity|]. split; [exact Hnl | exact Htr].
Defined.























(* ===================================================================== *)
(** * Replies to exchanges that fail *)
(* ===================================================================== *)

Section Replies.
Context `{Buffer}.

(** What the public side and the inspector see of an exchange that fails.
    A timeout is answered 504 [REQUEST_TIMEOUT]; an [http:error] frame is
    answered 502 [REQUEST_FAILED] with the frame's message, whatever its
    code, except that the message [Request timeout] is answered as a
    timeout; a request whose tunnel is closed while it waits is answered 502
    with the message [Tunnel closed].  In every one of these cases the
    record attached to the captured exchange carries the status 502 and the
    message, also when the reply was 504. *)
Theorem failed_exchange_replies (x : Exchange) (c : FinishClock) (g : Gateway) :
  output (complete x TimedOut c g)
  = output g ++ [Http_json 504 "Gateway timeout" REQUEST_TIMEOUT None] /\
  (forall error code,
      output (complete x (ErrorReceived error code) c g)
      = output g ++
        [ if String.eqb error "Request timeout"
          then Http_json 504 "Gateway timeout" REQUEST_TIMEOUT None
          else Http_json 502 "Bad gateway" REQUEST_FAILED (Some error) ]) /\
  output (forward_finish x (Rejected "Tunnel closed") c g)
  = output g ++ [Http_json 502 "Bad gateway" REQUEST_FAILED (Some "Tunnel closed")] /\
  (forall message traffic,
      trafficByRequestId (inspectorService g) !! x_requestId x = Some traffic ->
      exists slot,
        responses (inspectorService (forward_finish x (Rejected message) c g))
          !! it_obj traffic = Some slot /\
        r_statusCode (response slot) = 502 /\
        r_error (response slot) = Some message) /\
  (forall o message,
      settlement_of o = Rejected message ->
      inspectorService (complete x o c g)
      = inspectorService (forward_finish x (Rejected message) c g)).
Proof.
  split; [reflexivity|]. split; [reflexivity|]. split; [reflexivity|]. split.
  - intros message traffic Ht. eexists. split.
    + cbn [forward_finish inspectorService].
      apply recordResponse_stored. cbn [response_record r_requestId]. exact Ht.
    + split; reflexivity.
  - intros o message Ho. rewrite complete_inspector, Ho. reflexivity.
Qed.

End Replies.
